(** * gpii-app: restart warning and blurrable windows

    A shallow embedding of
    - [gpii.psp.baseRestartWarning] / [gpii.psp.restartWarning]
      (the restart warning of the PSP window), and
    - [gpii.app.blurrable] (blur handling of linked windows),
    together with the properties stated about them. *)

From stdpp Require Import base decidable option list strings gmap.
From Stdlib Require Import ZArith Lia.

Open Scope string_scope.
Open Scope Z_scope.
Open Scope list_scope.
Open Scope stdpp_scope.

(** ** JavaScript values and completions *)

Module JS.

(** The values that flow through the message bundle and the solution
    names: [undefined], [null] and strings. *)
Inductive value : Type :=
| VUndefined
| VNull
| VString (s : string).

#[export] Instance value_eq_dec : EqDecision value.
Proof. solve_decision. Defined.

(** [a === b] *)
Definition strictEq (a b : value) : bool := bool_decide (a = b).

(** ToBoolean: [undefined], [null] and the empty string are falsy. *)
Definition truthy (v : value) : bool :=
  match v with
  | VString s => negb (String.eqb s "")
  | _ => false
  end.

(** ToString as performed by [Array.prototype.join] on an element:
    [undefined] and [null] become the empty string. *)
Definition joinString (v : value) : string :=
  match v with
  | VString s => s
  | _ => ""
  end.

(** [arr.join(sep)] *)
Definition join (sep : string) (arr : list value) : string :=
  String.concat sep (joinString <$> arr).

(** [arr[0]]: reading past the end of an array gives [undefined]. *)
Definition first (arr : list value) : value :=
  match arr with
  | [] => VUndefined
  | v :: _ => v
  end.

(** [arr.indexOf(x)]: the index of the first element strictly equal to
    [x], or [-1]. *)
Fixpoint indexOfFrom {A} `{EqDecision A} (arr : list A) (x : A) (i : Z) : Z :=
  match arr with
  | [] => -1
  | y :: rest => if bool_decide (y = x) then i else indexOfFrom rest x (i + 1)
  end.

Definition indexOf {A} `{EqDecision A} (arr : list A) (x : A) : Z :=
  indexOfFrom arr x 0.

(** [arr.some(f)] *)
Definition some {A} (arr : list A) (f : A → bool) : bool := existsb f arr.

(** Abrupt completion: the only exception the modelled code can raise
    is the [TypeError] of a property read on [undefined] or [null]. *)
Inductive error : Type := TypeError.

Inductive completion (A : Type) : Type :=
| Normal (a : A)
| Throw (e : error).
Arguments Normal {A} a.
Arguments Throw {A} e.

#[export] Instance completion_ret : MRet completion := λ A a, Normal a.
#[export] Instance completion_bind : MBind completion := λ A B k m,
  match m with
  | Normal a => k a
  | Throw e => Throw e
  end.

End JS.
Import JS.

(** ** The Infusion helpers the sources call *)

Module fluid.

(** [fluid.isValue(v)]: [v] is neither [undefined] nor [null]. *)
Definition isValue (v : value) : bool :=
  match v with
  | VUndefined | VNull => false
  | VString _ => true
  end.

(** [fluid.find_if(source, func, deflt)]: the first element of [source]
    on which [func] is truthy; [None] stands for the default ([undefined]
    or [false] at the call sites), which is falsy, whereas every found
    element is an object and hence truthy. *)
Definition find_if {A} (source : list A) (func : A → bool) : option A :=
  (fix loop (rest : list A) : option A :=
     match rest with
     | [] => None
     | x :: rest' => if func x then Some x else loop rest'
     end) source.

Definition found {A} (r : option A) : bool :=
  match r with
  | Some _ => true
  | None => false
  end.

(** [fluid.accumulate(list, fn, arg)]: a left fold, [fn] receiving the
    element first and the running total second; a callback that throws
    aborts the fold. *)
Fixpoint accumulate {A B} (list : list A) (fn : A → B → completion B) (arg : B)
  : completion B :=
  match list with
  | [] => Normal arg
  | x :: rest => arg' ← fn x arg; accumulate rest fn arg'
  end.

End fluid.

(** ** gpii.psp.baseRestartWarning and gpii.psp.restartWarning *)

Module restartWarning.

Definition OSRestart : string := "OSRestart".

Record Schema := { title : value }.

(** A pending setting change. [pc_schema = None] is a change object
    without a [schema] property. *)
Record PendingChange := {
  pc_path : string;
  pc_liveness : string;
  pc_solutionName : value;
  pc_schema : option Schema
}.

(** [model.messages] *)
Record Messages := {
  osName : value;
  osRestartText : value;
  restartText : value;
  undo : value;
  applyNow : value;
  restartNow : value
}.

Unset Elimination Schemes.
(** A setting of a settings group; [s_settings = None] is a setting
    without subsettings. Its induction principle is [Setting_ind] below. *)
Inductive Setting : Type :=
  mkSetting { s_path : string; s_settings : option (list Setting) }.
Set Elimination Schemes.

(** [pendingChange.liveness === "OSRestart"] *)
Definition needsOSRestart (pendingChange : PendingChange) : bool :=
  String.eqb (pc_liveness pendingChange) OSRestart.

(** The conditional expression
    [fluid.isValue(pc.solutionName) ? pc.solutionName : pc.schema.title];
    reading [title] of a missing [schema] throws. *)
Definition solutionNameOf (pendingChange : PendingChange) : completion value :=
  if fluid.isValue (pc_solutionName pendingChange)
  then Normal (pc_solutionName pendingChange)
  else match pc_schema pendingChange with
       | Some schema => Normal (title schema)
       | None => Throw TypeError
       end.

(** The callback handed to [fluid.accumulate]. *)
Definition addSolutionName (pendingChange : PendingChange) (solutionNames : list value)
  : completion (list value) :=
  solutionName ← solutionNameOf pendingChange;
  if fluid.isValue solutionName && (indexOf solutionNames solutionName <? 0)
  then Normal (solutionNames ++ [solutionName])
  else Normal solutionNames.

Definition getSolutionsNames (messages : Messages) (pendingChanges : list PendingChange)
  : completion (list value) :=
  let isOSRestartNeeded := fluid.find_if pendingChanges needsOSRestart in
  if fluid.found isOSRestartNeeded
  then Normal [osName messages]
  else fluid.accumulate pendingChanges addSolutionName [].

Section Templates.

(** [fluid.stringTemplate(template, values)], applied to the object
    [{ solutions: ... }] given as its list of key/value pairs. *)
Variable stringTemplate : string → list (string * string) → string.

Definition generateRestartText (messages : Messages) (solutionNames : list value)
  : value :=
  if strictEq (first solutionNames) (osName messages)
  then osRestartText messages
  else match restartText messages with
       | VString template =>
           if truthy (VString template)
           then VString (stringTemplate template
                           [("solutions", join ", " solutionNames)])
           else VUndefined
       | _ => VUndefined
       end.

End Templates.

Definition generateRestartBtnLabel (messages : Messages) (solutionNames : list value)
  : value :=
  if strictEq (first solutionNames) (osName messages)
  then restartNow messages
  else applyNow messages.

(** The callback handed to [fluid.find_if] by [hasUpdatedSetting], with
    the recursive call through [setting.settings]. *)
Fixpoint appliesTo (pendingChange : PendingChange) (setting : Setting) : bool :=
  match setting with
  | mkSetting path settings =>
      if String.eqb path (pc_path pendingChange) then true
      else match settings with
           | Some subsettings =>
               fluid.found (fluid.find_if subsettings (appliesTo pendingChange))
           | None => false
           end
  end.

Definition hasUpdatedSetting (pendingChange : PendingChange) (settings : list Setting)
  : option Setting :=
  fluid.find_if settings (appliesTo pendingChange).

Definition getPendingChanges (pendingChanges : list PendingChange)
    (settings : list Setting) : list PendingChange :=
  List.filter (λ pendingChange, fluid.found (hasUpdatedSetting pendingChange settings))
    pendingChanges.

(** The jQuery container of the warning: [container.toggle(state)]
    shows it when [state] is true and hides it otherwise. *)
Record Container := { visible : bool }.

Definition toggle (solutionNames : list value) (container : Container) : Container :=
  {| visible := 0 <? Z.of_nat (List.length solutionNames) |}.

(** The model of [gpii.psp.restartWarning] once its relays have run. *)
Record Model := {
  m_pendingChanges : list PendingChange;
  m_solutionNames : list value;
  m_restartText : value;
  m_restartBtnLabel : value
}.

(** The [modelRelay] blocks of the two grades, in dependency order:
    the pending changes of the settings panel are scoped to the group
    ([getPendingChanges]), the solution names are derived from the
    scoped changes, the text and the button label from the solution
    names; the [solutionNames] model listener toggles the container.
    [m_restartText] and [m_restartBtnLabel] hold what the two transforms
    return. A transform result of [undefined] is not written to the
    model by the framework: the model then keeps the text it had (the
    default of the grade is the empty string), so these two fields give
    the model only when they are not [undefined]. *)
Definition relay (stringTemplate : string → list (string * string) → string)
    (messages : Messages) (panelPendingChanges : list PendingChange)
    (settings : list Setting) (container : Container)
  : completion (Model * Container) :=
  let pendingChanges := getPendingChanges panelPendingChanges settings in
  solutionNames ← getSolutionsNames messages pendingChanges;
  Normal ({| m_pendingChanges := pendingChanges;
             m_solutionNames := solutionNames;
             m_restartText := generateRestartText stringTemplate messages solutionNames;
             m_restartBtnLabel := generateRestartBtnLabel messages solutionNames |},
          toggle solutionNames container).

End restartWarning.

(** ** gpii.app.blurrable *)

Module blurrable.

(** An Electron window, as far as the component looks at it:
    [gradeNames] is the property attached by [initBlurrable]
    ([None] while it has not been attached), [blurListeners] counts the
    handlers registered for the window's "blur" event. *)
Record BrowserWindow := {
  gradeNames : option (list string);
  blurListeners : nat
}.

(** The component: its options and the number of times its [onBlur]
    event has been fired. *)
Record Component := {
  options_gradeNames : list string;
  options_linkedWindowsGrades : list string;
  onBlurFired : nat
}.

(** [that.events.onBlur.fire()] *)
Definition fireOnBlur (that : Component) : Component :=
  {| options_gradeNames := options_gradeNames that;
     options_linkedWindowsGrades := options_linkedWindowsGrades that;
     onBlurFired := S (onBlurFired that) |}.

(** [targetWindow.on] throws on a missing window, before the guard on
    [targetWindow] is reached. *)
Definition initBlurrable (that : Component) (targetWindow : option BrowserWindow)
  : completion BrowserWindow :=
  match targetWindow with
  | None => Throw TypeError
  | Some window =>
      Normal {| gradeNames := Some (options_gradeNames that);
                blurListeners := S (blurListeners window) |}
  end.

(** The value of the local [allowBlur]; [focusedWindow] is the result
    of [BrowserWindow.getFocusedWindow()], [None] for [null]. The
    callback of [some] returns [undefined] (falsy) when its guard
    fails. *)
Definition allowBlur (focusedWindow : option BrowserWindow)
    (linkedWindowsGrades : list string) : bool :=
  negb (some linkedWindowsGrades (λ linkedWindowGrade,
    match focusedWindow with
    | Some window =>
        match gradeNames window with
        | Some names => 0 <=? indexOf names linkedWindowGrade
        | None => false
        end
    | None => false
    end)).

Definition onFocusLost (focusedWindow : option BrowserWindow) (that : Component)
    (linkedWindowsGrades : list string) : Component :=
  if allowBlur focusedWindow linkedWindowsGrades
  then fireOnBlur that
  else that.

End blurrable.

(** ** Vocabulary of the properties and sample data *)

Section vocabulary.

Import restartWarning blurrable.

(** The grade names a window carries; a window to which none were
    attached carries no tag. *)
Definition tagsOf (window : BrowserWindow) : list string :=
  default [] (gradeNames window).

(** Some tag of the newly focused window is one of the linked grades. *)
Definition overlaps (focusedWindow : option BrowserWindow)
    (linkedWindowsGrades : list string) : Prop :=
  ∃ window tag, focusedWindow = Some window
                ∧ tag ∈ tagsOf window ∧ tag ∈ linkedWindowsGrades.

(** The paths of a setting and of all the settings below it, the
    setting itself first, then its subsettings from left to right,
    each followed by its own subtree. *)
Fixpoint pathsOf (setting : Setting) : list string :=
  match setting with
  | mkSetting path settings =>
      path :: match settings with
              | Some subsettings => subsettings ≫= pathsOf
              | None => []
              end
  end.

Definition treePaths (settings : list Setting) : list string :=
  settings ≫= pathsOf.

(** [nodeOf node settings]: [node] is one of [settings] or lies below
    one of them, at any depth. *)
Inductive nodeOf : Setting → list Setting → Prop :=
| nodeOf_top node settings :
    node ∈ settings → nodeOf node settings
| nodeOf_nested node parent subsettings settings :
    parent ∈ settings →
    s_settings parent = Some subsettings →
    nodeOf node subsettings →
    nodeOf node settings.

(** [subtreeOf sub settings]: [sub] keeps some of the nodes of
    [settings] in their order, or is a sub-tree of the subsettings of one
    of them. *)
Inductive subtreeOf : list Setting → list Setting → Prop :=
| subtreeOf_sublist sub settings :
    sub `sublist_of` settings → subtreeOf sub settings
| subtreeOf_nested sub parent subsettings settings :
    parent ∈ settings →
    s_settings parent = Some subsettings →
    subtreeOf sub subsettings →
    subtreeOf sub settings.

(** A pending change from which a name can be read: it has a solution
    name, or else a [schema] object to take the title from. *)
Definition hasNameSource (pendingChange : PendingChange) : Prop :=
  fluid.isValue (pc_solutionName pendingChange) = true
  ∨ is_Some (pc_schema pendingChange).

(** The display name of a pending change, in the words of the
    specification: its solution name if present, else the title of its
    schema (nothing when neither is there). *)
Definition displayName (pendingChange : PendingChange) : value :=
  if fluid.isValue (pc_solutionName pendingChange)
  then pc_solutionName pendingChange
  else match pc_schema pendingChange with
       | Some schema => title schema
       | None => VUndefined
       end.

(** The display names that are values, in the order of the changes. *)
Definition presentNames (pendingChanges : list PendingChange) : list value :=
  filter (λ name, fluid.isValue name = true) (displayName <$> pendingChanges).

(** Every name once, at the place of its first occurrence. *)
Fixpoint firstSeen (names : list value) : list value :=
  match names with
  | [] => []
  | name :: rest => name :: filter (λ other, other ≠ name) (firstSeen rest)
  end.

(** Sample data for the scenarios: settings, pending changes and an
    English message bundle. *)
Definition leaf (path : string) : Setting := mkSetting path None.
Definition group (path : string) (subsettings : list Setting) : Setting :=
  mkSetting path (Some subsettings).
Definition change (path : string) : PendingChange :=
  {| pc_path := path; pc_liveness := "ApplicationRestart";
     pc_solutionName := VUndefined; pc_schema := Some {| title := VNull |} |}.

Definition messages_en : Messages :=
  {| osName := VString "Windows";
     osRestartText := VString "Windows needs to restart to apply your changes.";
     restartText := VString "To apply your changes, %solutions must restart.";
     undo := VString "Undo";
     applyNow := VString "Apply now";
     restartNow := VString "Restart now" |}.

Definition appChange (path : string) (solutionName title : value) : PendingChange :=
  {| pc_path := path; pc_liveness := "ApplicationRestart";
     pc_solutionName := solutionName;
     pc_schema := Some {| restartWarning.title := title |} |}.

Definition osChange (path : string) (title : value) : PendingChange :=
  {| pc_path := path; pc_liveness := OSRestart;
     pc_solutionName := VUndefined;
     pc_schema := Some {| restartWarning.title := title |} |}.

(** A template function for the examples: every occurrence of the
    placeholder [%key] is replaced, in one pass from left to right. It is
    a stand-in for [fluid.stringTemplate], which searches the text again
    after each replacement; the two give the same text whenever no
    replacement brings a placeholder into the text, as in the examples
    below. The theorems take the template function as a parameter. *)
Fixpoint substitute (placeholder replacement : string) (skip : nat)
    (template : string) : string :=
  match template with
  | EmptyString => EmptyString
  | String c rest =>
      match skip with
      | S skip' => substitute placeholder replacement skip' rest
      | O =>
          if String.prefix placeholder template
          then String.append replacement
                 (substitute placeholder replacement
                    (String.length placeholder - 1)%nat rest)
          else String c (substitute placeholder replacement 0%nat rest)
      end
  end.

Definition stringTemplate_pass (template : string)
    (values : list (string * string)) : string :=
  fold_left (λ text '(key, value), substitute (String.append "%" key) value 0%nat text)
    values template.

(** One change among three requires an OS restart. *)
Definition changes_os : list PendingChange :=
  [appChange "a" (VString "Magnifier") VNull;
   osChange "b" (VString "Language");
   appChange "c" VUndefined (VString "Zoom Tool")].

Definition model_os : Model :=
  {| m_pendingChanges := changes_os;
     m_solutionNames := [VString "Windows"];
     m_restartText := VString "Windows needs to restart to apply your changes.";
     m_restartBtnLabel := VString "Restart now" |}.

End vocabulary.

(** ** gpii.qssWidget.menu and gpii.qssWidget.menu.presenter *)

Module qssMenu.

(** The event of the channel notifier that the widget fires. *)
Inductive Event : Type := onQssWidgetClosed.

(** A jQuery container, as far as the widget touches it: its classes
    and its attributes. *)
Record Element := {
  classes : gset string;
  attributes : gmap string string
}.

(** [container.addClass(className)] *)
Definition addClass (className : string) (container : Element) : Element :=
  {| classes := classes container ∪ {[className]};
     attributes := attributes container |}.

(** [container.removeClass(className)] *)
Definition removeClass (className : string) (container : Element) : Element :=
  {| classes := classes container ∖ {[className]};
     attributes := attributes container |}.

(** [container.toggleClass(className, state)] *)
Definition toggleClass (className : string) (state : bool) (container : Element)
  : Element :=
  if state then addClass className container else removeClass className container.

(** ToString of a boolean, as [attr] stores it. *)
Definition booleanString (b : bool) : string := if b then "true" else "false".

(** [container.attr(name, value)] with a boolean value. *)
Definition attr (name : string) (value : bool) (container : Element) : Element :=
  {| classes := classes container;
     attributes := <[name := booleanString value]> (attributes container) |}.

(** The source with which [updateValue] issues its change of the value. *)
Definition settingAlter : string := "settingAlter".

Section widget.

(** The values of the setting (the items of its enumeration), compared
    by strict equality. *)
Context {V : Type} `{EqDecision V}.

(** A request to the change applier: [applier.change(path, value, null,
    source)] for the two paths the widget changes. *)
Inductive ModelChange : Type :=
| ChangeValue (value : V) (source : option string)
| ChangeDisabled (disabled : bool) (source : option string).

(** The repeater of the menu: its model, the style [options.styles.disabled]
    and the changes requested from its applier, oldest first. *)
Record Repeater := {
  r_disabled : bool;
  r_value : V;
  r_disabledStyle : string;
  r_changes : list ModelChange
}.

(** The menu: [options.closeDelay] and the timers set by [setTimeout],
    each with its delay and the event its callback fires. *)
Record Menu := {
  closeDelay : Z;
  timers : list (Z * Event)
}.

(** [that.applier.change("value", value, null, "settingAlter")] *)
Definition changeValue (that : Repeater) (value : V) : Repeater :=
  {| r_disabled := r_disabled that;
     r_value := value;
     r_disabledStyle := r_disabledStyle that;
     r_changes := r_changes that ++ [ChangeValue value (Some settingAlter)] |}.

(** [that.applier.change("disabled", true)] *)
Definition changeDisabled (that : Repeater) (disabled : bool) : Repeater :=
  {| r_disabled := disabled;
     r_value := r_value that;
     r_disabledStyle := r_disabledStyle that;
     r_changes := r_changes that ++ [ChangeDisabled disabled None] |}.

Definition close (that : Menu) : Menu :=
  {| closeDelay := closeDelay that;
     timers := timers that ++ [(closeDelay that, onQssWidgetClosed)] |}.

Definition updateValue (that : Repeater) (menu : Menu) (container : Element)
    (value : V) : Repeater * Menu * Element :=
  if negb (r_disabled that) && negb (bool_decide (r_value that = value))
  then
    let that := changeValue that value in
    let that := changeDisabled that true in
    let container := addClass (r_disabledStyle that) container in
    (that, close menu, container)
  else (that, menu, container).

(** A presenter of one item: [model.item], [model.index], its container
    and [options.styles.active]. *)
Record Presenter := {
  p_item : V;
  p_index : nat;
  p_container : Element;
  p_activeStyle : string
}.

(** The focus manager, as the list of its [focusElement(element,
    applyHighlight)] calls, oldest first. *)
Definition FocusManager : Type := list (Element * bool).

Definition focusItem (that : Presenter) (focusManager : FocusManager)
    (container : Element) (index : nat) : FocusManager :=
  if bool_decide (p_index that = index)
  then focusManager ++ [(container, true)]
  else focusManager.

Definition toggleCheckmark (value item : V) (container : Element) : Element :=
  attr "aria-checked" (bool_decide (item = value)) container.

Definition animateActivation (value item : V) (container : Element)
    (styles_active : string) : Element :=
  toggleClass styles_active (bool_decide (item = value)) container.

(** The two model listeners of a presenter on [{repeater}.model.value],
    in the order of their declaration: [toggleCheckmark] for every change,
    [animateActivation] only for a change whose source is "settingAlter". *)
Definition valueListeners (source : option string) (value : V) (that : Presenter)
  : Presenter :=
  let container := toggleCheckmark value (p_item that) (p_container that) in
  let container :=
    if bool_decide (source = Some settingAlter)
    then animateActivation value (p_item that) container (p_activeStyle that)
    else container in
  {| p_item := p_item that; p_index := p_index that;
     p_container := container; p_activeStyle := p_activeStyle that |}.

(** The [onItemFocus] listener of every presenter of the repeater, run
    on one firing of the event. *)
Definition onItemFocus (presenters : list Presenter) (focusManager : FocusManager)
    (index : nat) : FocusManager :=
  fold_left (λ manager that, focusItem that manager (p_container that) index)
    presenters focusManager.

(** Successive calls of the [updateValue] invoker of one repeater. *)
Definition updateValues (values : list V) (state : Repeater * Menu * Element)
  : Repeater * Menu * Element :=
  fold_left (λ '(that, menu, container) value, updateValue that menu container value)
    values state.

End widget.

End qssMenu.

(** ** Event wiring of gpii.app.blurrable *)

Section blurrable_events.

Import blurrable.

(** The [onFocusLost] listener as the defaults bind it: it receives the
    component and its own [options.linkedWindowsGrades]. *)
Definition focusLostListener (focusedWindow : option BrowserWindow)
    (that : Component) : Component :=
  onFocusLost focusedWindow that (options_linkedWindowsGrades that).

(** A run of "blur" events; each comes with the window that holds the
    focus when the listener runs. *)
Definition focusLosses (focused : list (option BrowserWindow)) (that : Component)
  : Component :=
  fold_left (λ component focusedWindow, focusLostListener focusedWindow component)
    focused that.

End blurrable_events.

(** ** Sample data for the menu widget and the linked windows *)

Section samples.

Import restartWarning blurrable qssMenu.

Definition plainElement : Element := {| classes := ∅; attributes := ∅ |}.

Definition sizeRepeater (disabled : bool) : @Repeater string :=
  {| r_disabled := disabled; r_value := "small";
     r_disabledStyle := "disabled"; r_changes := [] |}.

Definition sizeMenu : Menu := {| closeDelay := 1200; timers := [] |}.

Definition sizePresenters : list (@Presenter string) :=
  [ {| p_item := "small"; p_index := 0; p_container := plainElement;
       p_activeStyle := "active" |};
    {| p_item := "medium"; p_index := 1; p_container := plainElement;
       p_activeStyle := "active" |};
    {| p_item := "large"; p_index := 2; p_container := plainElement;
       p_activeStyle := "active" |} ].

Definition qssComponent : Component :=
  {| options_gradeNames := ["gpii.app.qss"];
     options_linkedWindowsGrades := ["gpii.app.qssWidget"];
     onBlurFired := 0 |}.

Definition widgetComponent : Component :=
  {| options_gradeNames := ["gpii.app.qssWidget"];
     options_linkedWindowsGrades := ["gpii.app.qss"];
     onBlurFired := 0 |}.

Definition freshWindow : BrowserWindow :=
  {| gradeNames := None; blurListeners := 0 |}.

Definition magnifierChanges : list PendingChange :=
  [appChange "a" (VString "Magnifier") VNull;
   appChange "b" VUndefined (VString "Zoom Tool")].

Definition readerChanges : list PendingChange :=
  [appChange "c" (VString "Magnifier") VNull;
   appChange "d" (VString "Reader") VNull].

End samples.

(** ** Properties of the helpers *)

Section helpers.

Context {A : Type}.

Lemma find_if_nil (func : A → bool) : fluid.find_if [] func = None.
Proof. reflexivity. Qed.

Lemma find_if_cons (x : A) (rest : list A) (func : A → bool) :
  fluid.find_if (x :: rest) func
  = if func x then Some x else fluid.find_if rest func.
Proof. reflexivity. Qed.

Lemma found_find_if (source : list A) (func : A → bool) :
  fluid.found (fluid.find_if source func) = existsb func source.
Proof.
  induction source as [|x rest IH]; [done|].
  rewrite find_if_cons. simpl. destruct (func x); simpl; auto.
Qed.

Lemma found_find_if_true (source : list A) (func : A → bool) :
  fluid.found (fluid.find_if source func) = true
  ↔ ∃ x, x ∈ source ∧ func x = true.
Proof.
  rewrite found_find_if, existsb_exists.
  split; intros (x & H1 & H2); exists x; split; auto;
    by apply list_elem_of_In.
Qed.

Context `{EqDecision A}.

Lemma indexOfFrom_range (arr : list A) (x : A) (i : Z) :
  0 ≤ i →
  (x ∈ arr ∧ i ≤ indexOfFrom arr x i) ∨ ((x ∉ arr) ∧ indexOfFrom arr x i = -1).
Proof.
  revert i. induction arr as [|y rest IH]; intros i Hi; simpl.
  - right. split; [apply not_elem_of_nil | done].
  - case_bool_decide as Hy.
    + left. split; [subst; left | lia].
    + destruct (IH (i + 1)) as [[Hin Hle]|[Hout Heq]]; [lia| |].
      * left. split; [by right | lia].
      * right. split; [|done].
        intros [?|?]%elem_of_cons; congruence.
Qed.

Lemma indexOf_negative (arr : list A) (x : A) :
  (indexOf arr x <? 0) = bool_decide (x ∉ arr).
Proof.
  unfold indexOf.
  destruct (indexOfFrom_range arr x 0) as [[Hin Hle]|[Hout Heq]]; [lia| |].
  - rewrite bool_decide_eq_false_2 by auto. lia.
  - rewrite bool_decide_eq_true_2 by auto. rewrite Heq. reflexivity.
Qed.

Lemma indexOf_nonnegative (arr : list A) (x : A) :
  (0 <=? indexOf arr x) = bool_decide (x ∈ arr).
Proof.
  unfold indexOf.
  destruct (indexOfFrom_range arr x 0) as [[Hin Hle]|[Hout Heq]]; [lia| |].
  - rewrite bool_decide_eq_true_2 by auto. lia.
  - rewrite bool_decide_eq_false_2 by auto. rewrite Heq. reflexivity.
Qed.

End helpers.

(** ** Focus loss of linked windows *)

Section blur.

Import blurrable.

Lemma allowBlur_false_iff focusedWindow linkedWindowsGrades :
  allowBlur focusedWindow linkedWindowsGrades = false
  ↔ overlaps focusedWindow linkedWindowsGrades.
Proof.
  unfold allowBlur, some, overlaps, tagsOf.
  rewrite negb_false_iff, existsb_exists. split.
  - intros (tag & Hin & Hcb).
    destruct focusedWindow as [window|]; [|done].
    destruct (gradeNames window) as [names|] eqn:Hnames; [|done].
    rewrite indexOf_nonnegative in Hcb. apply bool_decide_eq_true in Hcb.
    exists window, tag. rewrite Hnames. simpl.
    split_and!; [done|done|by apply list_elem_of_In].
  - intros (window & tag & -> & Htag & Hlinked).
    exists tag. split; [by apply list_elem_of_In|].
    destruct (gradeNames window) as [names|]; simpl in Htag.
    + rewrite indexOf_nonnegative. by apply bool_decide_eq_true.
    + by apply not_elem_of_nil in Htag.
Qed.

Lemma allowBlur_true_iff focusedWindow linkedWindowsGrades :
  allowBlur focusedWindow linkedWindowsGrades = true
  ↔ ¬ overlaps focusedWindow linkedWindowsGrades.
Proof.
  rewrite <- allowBlur_false_iff.
  destruct (allowBlur focusedWindow linkedWindowsGrades); split; congruence.
Qed.

Lemma initBlurrable_attaches that window window' :
  initBlurrable that (Some window) = Normal window' →
  gradeNames window' = Some (options_gradeNames that).
Proof. intros [= <-]. reflexivity. Qed.

(** C2. On every call of [onFocusLost] the [onBlur] event is fired when
    no window holds the focus or when the tags of the newly focused
    window are disjoint from the linked grades, and it is not fired
    (the component is left as it was) when at least one tag of the newly
    focused window is a linked grade. *)
Theorem onFocusLost_decision (focusedWindow : option BrowserWindow)
    (that : Component) (linkedWindowsGrades : list string) :
  (focusedWindow = None
     → onFocusLost focusedWindow that linkedWindowsGrades = fireOnBlur that)
  ∧ (∀ window, focusedWindow = Some window
       → (∀ tag, tag ∈ tagsOf window → tag ∉ linkedWindowsGrades)
       → onFocusLost focusedWindow that linkedWindowsGrades = fireOnBlur that)
  ∧ (∀ window tag, focusedWindow = Some window
       → tag ∈ tagsOf window → tag ∈ linkedWindowsGrades
       → onFocusLost focusedWindow that linkedWindowsGrades = that)
  ∧ (allowBlur focusedWindow linkedWindowsGrades = true
       ↔ focusedWindow = None
         ∨ ∃ window, focusedWindow = Some window
             ∧ ∀ tag, tag ∈ tagsOf window → tag ∉ linkedWindowsGrades).
Proof.
  assert (Hiff : allowBlur focusedWindow linkedWindowsGrades = true
       ↔ focusedWindow = None
         ∨ ∃ window, focusedWindow = Some window
             ∧ ∀ tag, tag ∈ tagsOf window → tag ∉ linkedWindowsGrades).
  { rewrite allowBlur_true_iff. unfold overlaps. split.
    - intros Hno. destruct focusedWindow as [window|]; [right|by left].
      exists window. split; [done|]. intros tag Htag Hlinked.
      apply Hno. by exists window, tag.
    - intros [->|(window & -> & Hdisj)] (w & tag & Heq & Htag & Hlinked).
      + done.
      + injection Heq as <-. by apply (Hdisj tag). }
  unfold onFocusLost. repeat split.
  - intros Hnone. by rewrite (proj2 Hiff (or_introl Hnone)).
  - intros window Hw Hdisj.
    rewrite (proj2 Hiff); [done|]. right. by exists window.
  - intros window tag Hw Htag Hlinked.
    rewrite (proj2 (allowBlur_false_iff _ _)); [done|].
    by exists window, tag.
  - apply Hiff.
  - apply Hiff.
Qed.

(** C10. A newly focused window to which no grade names were attached
    lets the blur through whatever the linked grades are, and so does a
    component with no linked grades whatever window holds the focus. *)
Theorem onFocusLost_untagged (focusedWindow : option BrowserWindow)
    (that : Component) (linkedWindowsGrades : list string) :
  (∀ window, focusedWindow = Some window → gradeNames window = None
     → onFocusLost focusedWindow that linkedWindowsGrades = fireOnBlur that)
  ∧ onFocusLost focusedWindow that [] = fireOnBlur that.
Proof.
  split.
  - intros window -> Hnone. unfold onFocusLost.
    rewrite (proj2 (allowBlur_true_iff _ _)); [done|].
    intros (w & tag & [= <-] & Htag & _).
    unfold tagsOf in Htag. rewrite Hnone in Htag.
    by apply not_elem_of_nil in Htag.
  - reflexivity.
Qed.

(** Scenario: focus moves from one "qss" window to another. *)
Example onFocusLost_sibling :
  let that := {| options_gradeNames := ["qss"];
                 options_linkedWindowsGrades := ["qss"];
                 onBlurFired := 0 |} in
  let W2 := {| gradeNames := Some ["qss"; "widget"]; blurListeners := 1 |} in
  onFocusLost (Some W2) that ["qss"] = that.
Proof. reflexivity. Qed.

(** Scenario: focus leaves the application. *)
Example onFocusLost_outside :
  let that := {| options_gradeNames := ["qss"];
                 options_linkedWindowsGrades := ["qss"];
                 onBlurFired := 0 |} in
  onBlurFired (onFocusLost None that ["qss"]) = 1%nat.
Proof. reflexivity. Qed.

End blur.

(** ** Scoping pending changes to a settings group *)

Section scoping.

Import restartWarning.

(** Induction over settings, with the hypothesis for every subsetting. *)
Lemma Setting_ind (P : Setting → Prop) :
  (∀ path, P (mkSetting path None)) →
  (∀ path subsettings,
      Forall P subsettings → P (mkSetting path (Some subsettings))) →
  ∀ setting, P setting.
Proof.
  intros Hleaf Hnode. fix IH 1. intros [path [subsettings|]].
  - apply Hnode. induction subsettings as [|s rest IHrest].
    + constructor.
    + constructor; [apply IH | exact IHrest].
  - apply Hleaf.
Qed.

Lemma pathsOf_nodes (path : string) (setting : Setting) :
  path ∈ pathsOf setting
  ↔ s_path setting = path ∨
    ∃ subsettings node, s_settings setting = Some subsettings
                         ∧ nodeOf node subsettings ∧ s_path node = path.
Proof.
  revert path. induction setting as [p|p subsettings IH] using Setting_ind;
    intros path; simpl.
  - rewrite elem_of_cons. split.
    + intros [->|Hnil]; [by left|]. by apply not_elem_of_nil in Hnil.
    + intros [->|(? & ? & [=] & _)]. by left.
  - rewrite elem_of_cons, list_elem_of_bind.
    rewrite Forall_forall in IH. split.
    + intros [->|(child & Hpath & Hchild)]; [by left|]. right.
      exists subsettings. apply IH in Hpath; [|done].
      destruct Hpath as [Heq|(subs & node & Hsubs & Hnode & Heq)].
      * exists child. split_and!; [done| |done]. by apply nodeOf_top.
      * exists node. split_and!; [done| |done].
        by apply (nodeOf_nested node child subs).
    + intros [->|(subs & node & [= <-] & Hnode & Hpath)]; [by left|]. right.
      inversion Hnode as [n l Hin|n parent subs l Hin Hsubs Hbelow]; subst.
      * exists node. split; [|done]. apply IH; [done|]. by left.
      * exists parent. split; [|done]. apply IH; [done|]. right.
        by exists subs, node.
Qed.

Lemma treePaths_nodes (path : string) (settings : list Setting) :
  path ∈ treePaths settings
  ↔ ∃ node, nodeOf node settings ∧ s_path node = path.
Proof.
  unfold treePaths. rewrite list_elem_of_bind. split.
  - intros (top & Hpath & Htop). apply pathsOf_nodes in Hpath.
    destruct Hpath as [Heq|(subs & node & Hsubs & Hnode & Heq)].
    + exists top. split; [by apply nodeOf_top | done].
    + exists node. split; [|done]. by apply (nodeOf_nested node top subs).
  - intros (node & Hnode & Hpath).
    inversion Hnode as [n l Hin|n parent subs l Hin Hsubs Hbelow]; subst.
    + exists node. split; [|done]. apply pathsOf_nodes. by left.
    + exists parent. split; [|done]. apply pathsOf_nodes. right.
      by exists subs, node.
Qed.

Lemma appliesTo_pathsOf (pendingChange : PendingChange) (setting : Setting) :
  appliesTo pendingChange setting = true
  ↔ pc_path pendingChange ∈ pathsOf setting.
Proof.
  induction setting as [p|p subsettings IH] using Setting_ind; simpl.
  - rewrite elem_of_cons. destruct (String.eqb_spec p (pc_path pendingChange)).
    + split; [by left | done].
    + split; [done|]. intros [?|Hnil]; [done|].
      by apply not_elem_of_nil in Hnil.
  - rewrite elem_of_cons, list_elem_of_bind.
    rewrite Forall_forall in IH.
    destruct (String.eqb_spec p (pc_path pendingChange)).
    + split; [by left | done].
    + rewrite found_find_if_true. split.
      * intros (child & Hin & Happlies). right. exists child.
        split; [by apply IH | done].
      * intros [?|(child & Hpath & Hin)]; [done|]. exists child.
        split; [done | by apply IH].
Qed.

Lemma hasUpdatedSetting_treePaths (pendingChange : PendingChange)
    (settings : list Setting) :
  fluid.found (hasUpdatedSetting pendingChange settings) = true
  ↔ pc_path pendingChange ∈ treePaths settings.
Proof.
  unfold hasUpdatedSetting, treePaths.
  rewrite found_find_if_true, list_elem_of_bind.
  split; intros (setting & H1 & H2); exists setting.
  - split; [by apply appliesTo_pathsOf | done].
  - split; [done | by apply appliesTo_pathsOf].
Qed.

Lemma getPendingChanges_filter (pendingChanges : list PendingChange)
    (settings : list Setting) :
  getPendingChanges pendingChanges settings
  = filter (λ pendingChange, pc_path pendingChange ∈ treePaths settings)
      pendingChanges.
Proof.
  unfold getPendingChanges.
  induction pendingChanges as [|pc rest IH]; [done|]. simpl.
  rewrite filter_cons, IH.
  destruct (fluid.found (hasUpdatedSetting pc settings)) eqn:Hfound.
  - apply hasUpdatedSetting_treePaths in Hfound. by rewrite decide_True.
  - rewrite decide_False; [done|]. intros Hin.
    apply hasUpdatedSetting_treePaths in Hin. congruence.
Qed.

Lemma treePaths_subtreeOf (sub settings : list Setting) :
  subtreeOf sub settings →
  ∀ path, path ∈ treePaths sub → path ∈ treePaths settings.
Proof.
  induction 1 as [sub settings Hsub|sub parent subs settings Hin Hsubs _ IH];
    intros path Hpath.
  - unfold treePaths in *. rewrite list_elem_of_bind in *.
    destruct Hpath as (node & Hnode & Htop). exists node. split; [done|].
    by apply (sublist_subseteq _ _ Hsub).
  - apply IH in Hpath. apply list_elem_of_bind.
    exists parent. split; [|done].
    destruct parent as [p settings']. simpl in Hsubs. subst settings'.
    simpl. right. exact Hpath.
Qed.

Lemma filter_sublist_impl {A} (P Q : A → Prop)
    `{∀ x, Decision (P x)} `{∀ x, Decision (Q x)} (l : list A) :
  (∀ x, P x → Q x) → filter P l `sublist_of` filter Q l.
Proof.
  intros Himpl. induction l as [|x l IH]; [done|].
  rewrite !filter_cons.
  destruct (decide (P x)) as [HP|HP].
  - rewrite decide_True by auto. by apply sublist_skip.
  - destruct (decide (Q x)); [by apply sublist_cons | done].
Qed.

End scoping.

Section scoping_properties.

Import restartWarning.

(** C4. [getPendingChanges] keeps exactly the pending changes whose
    path is the path of some setting of the tree, at any depth, and
    keeps them in the order of the input. *)
Theorem getPendingChanges_scope (pendingChanges : list PendingChange)
    (settings : list Setting) :
  getPendingChanges pendingChanges settings
  = filter (λ pendingChange, pc_path pendingChange ∈ treePaths settings)
      pendingChanges
  ∧ (∀ path, path ∈ treePaths settings
             ↔ ∃ node, nodeOf node settings ∧ s_path node = path)
  ∧ getPendingChanges pendingChanges settings `sublist_of` pendingChanges
  ∧ (∀ pendingChange,
       pendingChange ∈ getPendingChanges pendingChanges settings
       ↔ pendingChange ∈ pendingChanges
         ∧ ∃ node, nodeOf node settings
                   ∧ s_path node = pc_path pendingChange).
Proof.
  split_and!.
  - apply getPendingChanges_filter.
  - intros path. apply treePaths_nodes.
  - rewrite getPendingChanges_filter. apply sublist_filter.
  - intros pendingChange.
    rewrite getPendingChanges_filter, list_elem_of_filter, treePaths_nodes.
    tauto.
Qed.

(** C9. Scoping to a sub-tree of a settings list includes no pending
    change that scoping to the full list excludes: the changes kept for
    the sub-tree are among those kept for the full list, in the same
    order. *)
Theorem getPendingChanges_monotone (sub settings : list Setting)
    (pendingChanges : list PendingChange) :
  subtreeOf sub settings →
  getPendingChanges pendingChanges sub
    `sublist_of` getPendingChanges pendingChanges settings
  ∧ ∀ pendingChange,
      pendingChange ∈ getPendingChanges pendingChanges sub →
      pendingChange ∈ getPendingChanges pendingChanges settings.
Proof.
  intros Hsub.
  assert (Hlist : getPendingChanges pendingChanges sub
                    `sublist_of` getPendingChanges pendingChanges settings).
  { rewrite !getPendingChanges_filter. apply filter_sublist_impl.
    intros pendingChange. by apply treePaths_subtreeOf. }
  split; [done|]. intros pendingChange.
  by apply (sublist_subseteq _ _ Hlist).
Qed.

Example getPendingChanges_nested :
  getPendingChanges [change "x"; change "d"; change "e"; change "a"]
    [group "a" [leaf "b"; group "c" [leaf "d"]]; leaf "e"]
  = [change "d"; change "e"; change "a"].
Proof. reflexivity. Qed.

Lemma getPendingChanges_monotone_witness :
  subtreeOf [group "c" [leaf "d"]]
    [group "a" [leaf "b"; group "c" [leaf "d"]]; leaf "e"]
  ∧ getPendingChanges [change "x"; change "d"; change "e"]
      [group "c" [leaf "d"]]
      `sublist_of`
    getPendingChanges [change "x"; change "d"; change "e"]
      [group "a" [leaf "b"; group "c" [leaf "d"]]; leaf "e"].
Proof.
  assert (Hsub : subtreeOf [group "c" [leaf "d"]]
            [group "a" [leaf "b"; group "c" [leaf "d"]]; leaf "e"]).
  { apply (subtreeOf_nested _ (group "a" [leaf "b"; group "c" [leaf "d"]])
             [leaf "b"; group "c" [leaf "d"]]).
    - apply list_elem_of_here.
    - reflexivity.
    - apply subtreeOf_sublist. apply sublist_cons. reflexivity. }
  split; [exact Hsub|].
  exact (proj1 (getPendingChanges_monotone _ _
                  [change "x"; change "d"; change "e"] Hsub)).
Defined.

End scoping_properties.

(** ** Solution names *)

Section solution_names.

Import restartWarning.

Lemma firstSeen_elem_of (names : list value) (name : value) :
  name ∈ firstSeen names ↔ name ∈ names.
Proof.
  induction names as [|n rest IH]; [done|]. simpl.
  rewrite !elem_of_cons, list_elem_of_filter, IH.
  destruct (decide (name = n)); tauto.
Qed.

Lemma firstSeen_NoDup (names : list value) : NoDup (firstSeen names).
Proof.
  induction names as [|n rest IH]; simpl; [constructor|].
  apply NoDup_cons. split.
  - rewrite list_elem_of_filter. tauto.
  - by apply NoDup_filter.
Qed.

Lemma firstSeen_sublist (names : list value) : firstSeen names `sublist_of` names.
Proof.
  induction names as [|n rest IH]; simpl; [constructor|].
  apply sublist_skip. etrans; [apply sublist_filter | exact IH].
Qed.

Lemma needsOSRestart_true (pendingChange : PendingChange) :
  needsOSRestart pendingChange = true ↔ pc_liveness pendingChange = OSRestart.
Proof. unfold needsOSRestart. apply String.eqb_eq. Qed.

Lemma isOSRestartNeeded_false (pendingChanges : list PendingChange) :
  Forall (λ pendingChange, pc_liveness pendingChange ≠ OSRestart) pendingChanges →
  fluid.found (fluid.find_if pendingChanges needsOSRestart) = false.
Proof.
  rewrite Forall_forall. intros Hnone.
  apply not_true_is_false. rewrite found_find_if_true.
  intros (pc & Hin & Hos). apply needsOSRestart_true in Hos.
  by apply (Hnone pc).
Qed.

Lemma solutionNameOf_displayName (pendingChange : PendingChange) :
  hasNameSource pendingChange →
  solutionNameOf pendingChange = Normal (displayName pendingChange).
Proof.
  unfold hasNameSource, solutionNameOf, displayName.
  destruct (fluid.isValue (pc_solutionName pendingChange)); [done|].
  intros [?|[schema ->]]; done.
Qed.

Lemma solutionNameOf_Normal (pendingChange : PendingChange) (name : value) :
  solutionNameOf pendingChange = Normal name → hasNameSource pendingChange.
Proof.
  unfold hasNameSource, solutionNameOf.
  destruct (fluid.isValue (pc_solutionName pendingChange)); [by left|].
  destruct (pc_schema pendingChange); [by right; eexists | done].
Qed.

(** One step of the accumulation: the name is appended exactly when it
    is a value that the names collected so far do not contain. *)
Lemma addSolutionName_step (pendingChange : PendingChange)
    (solutionNames : list value) :
  hasNameSource pendingChange →
  addSolutionName pendingChange solutionNames
  = Normal (if bool_decide (fluid.isValue (displayName pendingChange) = true
                            ∧ displayName pendingChange ∉ solutionNames)
            then solutionNames ++ [displayName pendingChange]
            else solutionNames).
Proof.
  intros Hsrc. unfold addSolutionName.
  rewrite (solutionNameOf_displayName _ Hsrc). simpl.
  rewrite indexOf_negative.
  rewrite bool_decide_and.
  destruct (fluid.isValue (displayName pendingChange)); simpl; [|done].
  by destruct (bool_decide (displayName pendingChange ∉ solutionNames)).
Qed.

Lemma accumulate_app {A B} (l1 l2 : list A) (fn : A → B → completion B)
    (arg : B) :
  fluid.accumulate (l1 ++ l2) fn arg
  = fluid.accumulate l1 fn arg ≫= fluid.accumulate l2 fn.
Proof.
  revert arg. induction l1 as [|x l1 IH]; intros arg; simpl; [done|].
  destruct (fn x arg) as [arg'|e]; simpl; [apply IH | done].
Qed.

Lemma accumulate_Normal (pendingChanges : list PendingChange)
    (initial names : list value) :
  fluid.accumulate pendingChanges addSolutionName initial = Normal names →
  Forall hasNameSource pendingChanges.
Proof.
  revert initial. induction pendingChanges as [|pc rest IH]; intros initial;
    [constructor|].
  cbn [fluid.accumulate].
  destruct (addSolutionName pc initial) as [collected|e] eqn:Hstep;
    simpl; [|done].
  intros Hrest. constructor; [|by eapply IH].
  unfold addSolutionName in Hstep.
  destruct (solutionNameOf pc) as [name|e] eqn:Hname; [|done].
  by eapply solutionNameOf_Normal.
Qed.

Lemma accumulate_firstSeen (pendingChanges : list PendingChange)
    (initial : list value) :
  Forall hasNameSource pendingChanges →
  fluid.accumulate pendingChanges addSolutionName initial
  = Normal (initial ++ filter (λ name, name ∉ initial)
                         (firstSeen (presentNames pendingChanges))).
Proof.
  intros Hsrc. revert initial.
  induction Hsrc as [|pc rest Hpc Hrest IH]; intros initial.
  - simpl. by rewrite app_nil_r.
  - cbn [fluid.accumulate]. rewrite (addSolutionName_step _ _ Hpc). simpl.
    unfold presentNames. rewrite fmap_cons, filter_cons.
    fold (presentNames rest).
    case_bool_decide as Hadd.
    + destruct Hadd as [Hvalue Hnew].
      rewrite decide_True by done. cbn [firstSeen].
      rewrite filter_cons, decide_True by done.
      rewrite IH, <- app_assoc. simpl. do 3 f_equal.
      rewrite list_filter_filter. apply list_filter_iff.
      intros name. rewrite elem_of_app, list_elem_of_singleton. tauto.
    + rewrite IH. do 2 f_equal.
      destruct (decide (fluid.isValue (displayName pc) = true)) as [Hvalue|];
        [|done].
      cbn [firstSeen]. rewrite filter_cons, decide_False by tauto.
      rewrite list_filter_filter. apply list_filter_iff.
      intros name. split; [|tauto]. intros Hname. split; [done|].
      intros ->. tauto.
Qed.

End solution_names.

Section solution_names_properties.

Import restartWarning.

Lemma presentNames_elem_of (pendingChanges : list PendingChange) (name : value) :
  name ∈ presentNames pendingChanges
  ↔ fluid.isValue name = true
    ∧ ∃ pendingChange, pendingChange ∈ pendingChanges
                       ∧ displayName pendingChange = name.
Proof.
  unfold presentNames. rewrite list_elem_of_filter, list_elem_of_fmap.
  split; intros [Hvalue (pc & H1 & H2)]; (split; [done|]); exists pc; done.
Qed.

Lemma filter_not_elem_of_nil (names : list value) :
  filter (λ name, name ∉ []) names = names.
Proof.
  induction names as [|n rest IH]; [done|].
  rewrite filter_cons_True; [by f_equal | apply not_elem_of_nil].
Qed.

Lemma presentNames_app (before after : list PendingChange) :
  presentNames (before ++ after) = presentNames before ++ presentNames after.
Proof. unfold presentNames. by rewrite fmap_app, filter_app. Qed.

Lemma isOSRestartNeeded_true (pendingChanges : list PendingChange) :
  Exists (λ pendingChange, pc_liveness pendingChange = OSRestart) pendingChanges →
  fluid.found (fluid.find_if pendingChanges needsOSRestart) = true.
Proof.
  rewrite Exists_exists, found_find_if_true.
  intros (pc & Hin & Hos). exists pc. by rewrite needsOSRestart_true.
Qed.

(** C1. As soon as one pending change requires an OS restart, the
    solution names are the OS name alone, whatever the message bundle,
    the other pending changes and their order. *)
Theorem getSolutionsNames_OSRestart (messages : Messages)
    (pendingChanges : list PendingChange) :
  Exists (λ pendingChange, pc_liveness pendingChange = OSRestart) pendingChanges →
  getSolutionsNames messages pendingChanges = Normal [osName messages]
  ∧ ∀ reordered, reordered ≡ₚ pendingChanges →
      getSolutionsNames messages reordered = Normal [osName messages].
Proof.
  intros Hos.
  assert (Hbranch : ∀ changes,
    Exists (λ pendingChange, pc_liveness pendingChange = OSRestart) changes →
    getSolutionsNames messages changes = Normal [osName messages]).
  { intros changes Hchanges. unfold getSolutionsNames.
    by rewrite isOSRestartNeeded_true. }
  split; [by apply Hbranch|].
  intros reordered Hperm. apply Hbranch.
  rewrite Exists_exists in *. destruct Hos as (pc & Hin & Hpc).
  exists pc. split; [by rewrite Hperm | done].
Qed.

Lemma getSolutionsNames_OSRestart_witness :
  getSolutionsNames messages_en
    [appChange "a" (VString "Magnifier") VNull;
     osChange "b" (VString "Language");
     appChange "c" VUndefined (VString "Zoom Tool")]
  = Normal [VString "Windows"].
Proof.
  refine (proj1 (getSolutionsNames_OSRestart messages_en _ _)).
  apply Exists_cons_tl, Exists_cons_hd. reflexivity.
Defined.

(** C3, as amended. When no pending change requires an OS restart,
    [getSolutionsNames] returns the display names (solution name if it
    is a value, else the schema title) that are values, each once, in
    the order of their first occurrence: a name is appended only if it
    is neither [undefined] nor [null] and not yet in the list (the empty
    string is a value and is appended). The result has no duplicates. *)
Theorem getSolutionsNames_first_seen (messages : Messages)
    (pendingChanges : list PendingChange) :
  Forall (λ pendingChange, pc_liveness pendingChange ≠ OSRestart) pendingChanges →
  (Forall hasNameSource pendingChanges →
     getSolutionsNames messages pendingChanges
     = Normal (firstSeen (presentNames pendingChanges)))
  ∧ (∀ solutionNames,
       getSolutionsNames messages pendingChanges = Normal solutionNames →
       solutionNames = firstSeen (presentNames pendingChanges)
       ∧ NoDup solutionNames
       ∧ solutionNames `sublist_of` (displayName <$> pendingChanges)
       ∧ ∀ name, name ∈ solutionNames
                 ↔ fluid.isValue name = true
                   ∧ ∃ pendingChange, pendingChange ∈ pendingChanges
                                      ∧ displayName pendingChange = name)
  ∧ (∀ pendingChange collected,
       hasNameSource pendingChange →
       addSolutionName pendingChange collected
       = Normal (if bool_decide (fluid.isValue (displayName pendingChange) = true
                                 ∧ displayName pendingChange ∉ collected)
                 then collected ++ [displayName pendingChange]
                 else collected)).
Proof.
  intros Hnone.
  assert (Hreturns : Forall hasNameSource pendingChanges →
     getSolutionsNames messages pendingChanges
     = Normal (firstSeen (presentNames pendingChanges))).
  { intros Hsrc. unfold getSolutionsNames.
    rewrite isOSRestartNeeded_false by done.
    rewrite accumulate_firstSeen by done. simpl. f_equal.
    apply filter_not_elem_of_nil. }
  split_and!; [done| |apply addSolutionName_step].
  intros solutionNames Hnames.
  assert (Hsrc : Forall hasNameSource pendingChanges).
  { unfold getSolutionsNames in Hnames.
    rewrite isOSRestartNeeded_false in Hnames by done.
    by eapply accumulate_Normal. }
  rewrite (Hreturns Hsrc) in Hnames. injection Hnames as <-.
  split_and!.
  - done.
  - apply firstSeen_NoDup.
  - etrans; [apply firstSeen_sublist | apply sublist_filter].
  - intros name. by rewrite firstSeen_elem_of, presentNames_elem_of.
Qed.

Lemma getSolutionsNames_first_seen_witness :
  getSolutionsNames messages_en
    [appChange "a" (VString "Magnifier") VNull;
     appChange "b" (VString "Magnifier") VNull;
     appChange "c" VUndefined (VString "Zoom Tool")]
  = Normal [VString "Magnifier"; VString "Zoom Tool"].
Proof.
  refine (proj1 (getSolutionsNames_first_seen messages_en
           [appChange "a" (VString "Magnifier") VNull;
            appChange "b" (VString "Magnifier") VNull;
            appChange "c" VUndefined (VString "Zoom Tool")] _) _).
  - repeat (apply List.Forall_cons; [discriminate|]). apply List.Forall_nil.
  - repeat (apply List.Forall_cons; [right; eexists; reflexivity|]).
    apply List.Forall_nil.
Defined.

(** C3, counterexample: an empty solution name is a value; it is taken
    as the display name (not the title) and appended. *)
Lemma getSolutionsNames_empty_name :
  getSolutionsNames messages_en [appChange "a" (VString "") (VString "Zoom Tool")]
  = Normal [VString ""].
Proof. reflexivity. Qed.

End solution_names_properties.

Section absent_names.

Import restartWarning.

Lemma addSolutionName_absent (pendingChange : PendingChange) (schema : Schema)
    (collected : list value) :
  fluid.isValue (pc_solutionName pendingChange) = false →
  pc_schema pendingChange = Some schema →
  fluid.isValue (title schema) = false →
  addSolutionName pendingChange collected = Normal collected.
Proof.
  intros Hname Hschema Htitle. unfold addSolutionName, solutionNameOf.
  rewrite Hname, Hschema. simpl. by rewrite Htitle.
Qed.

(** C5, as amended. [getSolutionsNames] returns normally whenever some
    pending change requires an OS restart or every pending change
    without a solution name carries a schema object; a pending change
    that requires no OS restart and whose solution name and schema title
    are both absent contributes nothing to the result. *)
Theorem getSolutionsNames_absent_name (messages : Messages) :
  (∀ pendingChanges,
     Exists (λ pendingChange, pc_liveness pendingChange = OSRestart) pendingChanges
     ∨ Forall hasNameSource pendingChanges →
     ∃ solutionNames,
       getSolutionsNames messages pendingChanges = Normal solutionNames)
  ∧ (∀ before pendingChange after schema,
       pc_liveness pendingChange ≠ OSRestart →
       fluid.isValue (pc_solutionName pendingChange) = false →
       pc_schema pendingChange = Some schema →
       fluid.isValue (title schema) = false →
       getSolutionsNames messages (before ++ pendingChange :: after)
       = getSolutionsNames messages (before ++ after)).
Proof.
  split.
  - intros pendingChanges [Hos|Hsrc]; unfold getSolutionsNames.
    + rewrite isOSRestartNeeded_true by done. by eexists.
    + destruct (fluid.found _); [by eexists|].
      rewrite accumulate_firstSeen by done. by eexists.
  - intros before pendingChange after schema Hos Hname Hschema Htitle.
    unfold getSolutionsNames.
    rewrite !found_find_if, !existsb_app. simpl.
    assert (needsOSRestart pendingChange = false) as ->.
    { apply not_true_is_false. by rewrite needsOSRestart_true. }
    simpl. destruct (existsb needsOSRestart before || existsb needsOSRestart after);
      [done|].
    rewrite !accumulate_app.
    destruct (fluid.accumulate before addSolutionName []) as [collected|e];
      simpl; [|done].
    by rewrite (addSolutionName_absent _ schema).
Qed.

(** C5, counterexample: a pending change without solution name and
    without [schema] makes [getSolutionsNames] throw. *)
Lemma getSolutionsNames_missing_schema :
  getSolutionsNames messages_en
    [{| pc_path := "a"; pc_liveness := "ApplicationRestart";
        pc_solutionName := VUndefined; pc_schema := None |}]
  = Throw TypeError.
Proof. reflexivity. Qed.

Example getSolutionsNames_untitled :
  getSolutionsNames messages_en
    [appChange "a" (VString "Magnifier") VNull;
     appChange "b" VUndefined VNull;
     appChange "c" VNull (VString "Zoom Tool")]
  = Normal [VString "Magnifier"; VString "Zoom Tool"].
Proof. reflexivity. Qed.

End absent_names.

(** ** Restart text, button label and visibility *)

Section texts.

Import restartWarning.

Example stringTemplate_pass_solutions :
  stringTemplate_pass "To apply your changes, %solutions must restart."
    [("solutions", "Magnifier, Zoom Tool")]
  = "To apply your changes, Magnifier, Zoom Tool must restart.".
Proof. reflexivity. Qed.

Lemma strictEq_true (a b : value) : strictEq a b = true ↔ a = b.
Proof. unfold strictEq. apply bool_decide_eq_true. Qed.

Lemma strictEq_false (a b : value) : strictEq a b = false ↔ a ≠ b.
Proof. unfold strictEq. apply bool_decide_eq_false. Qed.

Lemma generateRestartBtnLabel_os (messages : Messages) (solutionNames : list value) :
  first solutionNames = osName messages →
  generateRestartBtnLabel messages solutionNames = restartNow messages.
Proof.
  intros Heq. unfold generateRestartBtnLabel.
  by rewrite (proj2 (strictEq_true _ _) Heq).
Qed.

Lemma generateRestartBtnLabel_apps (messages : Messages) (solutionNames : list value) :
  first solutionNames ≠ osName messages →
  generateRestartBtnLabel messages solutionNames = applyNow messages.
Proof.
  intros Hne. unfold generateRestartBtnLabel.
  by rewrite (proj2 (strictEq_false _ _) Hne).
Qed.

Lemma relay_inv stringTemplate messages panelPendingChanges settings container
    model container' :
  relay stringTemplate messages panelPendingChanges settings container
  = Normal (model, container') →
  m_pendingChanges model = getPendingChanges panelPendingChanges settings
  ∧ getSolutionsNames messages (m_pendingChanges model)
    = Normal (m_solutionNames model)
  ∧ m_restartText model
    = generateRestartText stringTemplate messages (m_solutionNames model)
  ∧ m_restartBtnLabel model
    = generateRestartBtnLabel messages (m_solutionNames model)
  ∧ container' = toggle (m_solutionNames model) container.
Proof.
  unfold relay.
  destruct (getSolutionsNames messages
              (getPendingChanges panelPendingChanges settings))
    as [solutionNames|e] eqn:Hnames; simpl; [|done].
  intros [= <- <-]. simpl. by rewrite Hnames.
Qed.

(** The first of the first-seen display names is the display name of
    some pending change. *)
Lemma first_firstSeen (pendingChanges : list PendingChange) :
  first (firstSeen (presentNames pendingChanges)) = VUndefined
  ∨ ∃ pendingChange, pendingChange ∈ pendingChanges
      ∧ displayName pendingChange
        = first (firstSeen (presentNames pendingChanges)).
Proof.
  destruct (firstSeen (presentNames pendingChanges)) as [|name rest] eqn:Hnames;
    [by left|]. right. simpl.
  assert (Hin : name ∈ firstSeen (presentNames pendingChanges)).
  { rewrite Hnames. left. }
  rewrite firstSeen_elem_of, presentNames_elem_of in Hin.
  destruct Hin as [_ (pc & Hpc & Hname)]. by exists pc.
Qed.

End texts.

Section text_properties.

Import restartWarning.

Variable stringTemplate : string → list (string * string) → string.

Lemma getSolutionsNames_apps (messages : Messages)
    (pendingChanges : list PendingChange) (solutionNames : list value) :
  Forall (λ pendingChange, pc_liveness pendingChange ≠ OSRestart) pendingChanges →
  getSolutionsNames messages pendingChanges = Normal solutionNames →
  solutionNames = firstSeen (presentNames pendingChanges).
Proof.
  intros Hnone Hnames. unfold getSolutionsNames in Hnames.
  rewrite isOSRestartNeeded_false in Hnames by done.
  pose proof (accumulate_Normal _ _ _ Hnames) as Hsrc.
  rewrite accumulate_firstSeen in Hnames by done.
  injection Hnames as <-. simpl. by rewrite filter_not_elem_of_nil.
Qed.

(** C8, as amended. [generateRestartText] returns the OS restart text
    as it is when the first solution name is the OS name; otherwise,
    when the [restartText] template is a non-empty string, it returns
    the template instantiated with the solution names joined by ", ",
    and when the template is absent or the empty string it returns
    nothing ([undefined]). *)
Theorem generateRestartText_cases (messages : Messages)
    (solutionNames : list value) :
  (first solutionNames = osName messages →
     generateRestartText stringTemplate messages solutionNames
     = osRestartText messages)
  ∧ (first solutionNames ≠ osName messages →
     ∀ template, restartText messages = VString template → template ≠ "" →
       generateRestartText stringTemplate messages solutionNames
       = VString (stringTemplate template
                    [("solutions", join ", " solutionNames)]))
  ∧ (first solutionNames ≠ osName messages →
     restartText messages = VUndefined ∨ restartText messages = VNull
     ∨ restartText messages = VString "" →
     generateRestartText stringTemplate messages solutionNames = VUndefined).
Proof.
  unfold generateRestartText. split_and!.
  - intros Heq. by rewrite (proj2 (strictEq_true _ _) Heq).
  - intros Hne template Htemplate Hnonempty.
    rewrite (proj2 (strictEq_false _ _) Hne), Htemplate. simpl.
    by rewrite (proj2 (String.eqb_neq _ _) Hnonempty).
  - intros Hne Habsent. rewrite (proj2 (strictEq_false _ _) Hne).
    by destruct Habsent as [->|[->| ->]].
Qed.

(** C6, as amended. The container is visible exactly when there is at
    least one solution name, so with no solution name the warning is
    hidden. The two text functions have no case for an empty list of
    solution names and do not give an absent result for it: with an OS
    name other than [undefined], [generateRestartBtnLabel] returns
    [messages.applyNow], and [generateRestartText] returns the
    [restartText] template instantiated with an empty list of solutions
    whenever that template is a non-empty string. *)
Theorem restartWarning_visibility (messages : Messages) :
  (∀ solutionNames container,
     visible (toggle solutionNames container)
     = bool_decide (0 < length solutionNames)%nat)
  ∧ (∀ panelPendingChanges settings container model container',
       relay stringTemplate messages panelPendingChanges settings container
       = Normal (model, container') →
       visible container' = bool_decide (0 < length (m_solutionNames model))%nat
       ∧ (m_solutionNames model = [] → visible container' = false))
  ∧ (osName messages ≠ VUndefined →
     generateRestartBtnLabel messages [] = applyNow messages
     ∧ ∀ template,
         restartText messages = VString template → template ≠ "" →
         generateRestartText stringTemplate messages []
         = VString (stringTemplate template [("solutions", "")])).
Proof.
  assert (Htoggle : ∀ solutionNames container,
     visible (toggle solutionNames container)
     = bool_decide (0 < length solutionNames)%nat).
  { intros solutionNames container. unfold toggle. cbn [visible].
    case_bool_decide; [apply Z.ltb_lt | apply Z.ltb_ge]; lia. }
  split_and!; [exact Htoggle| |].
  - intros panelPendingChanges settings container model container' Hrelay.
    apply relay_inv in Hrelay as (_ & _ & _ & _ & ->).
    split; [apply Htoggle|]. intros Hempty. by rewrite Htoggle, Hempty.
  - intros Hos.
    assert (Hfirst : first [] ≠ osName messages) by (simpl; congruence).
    split; [by apply generateRestartBtnLabel_apps|].
    intros template Htemplate Hnonempty. unfold generateRestartText.
    rewrite (proj2 (strictEq_false _ _) Hfirst), Htemplate. simpl.
    by rewrite (proj2 (String.eqb_neq _ _) Hnonempty).
Qed.

(** C7, as amended. After the relays have run, the button label is
    [messages.restartNow] when the first solution name is the OS name,
    which is the case whenever a scoped pending change requires an OS
    restart, and [messages.applyNow] when it is not, which is the case
    whenever no scoped pending change requires an OS restart, the OS
    name is not [undefined] and no display name equals it. *)
Theorem restartBtnLabel_cases (messages : Messages)
    (panelPendingChanges : list PendingChange) (settings : list Setting)
    (container : Container) (model : Model) (container' : Container) :
  relay stringTemplate messages panelPendingChanges settings container
  = Normal (model, container') →
  (Exists (λ pendingChange, pc_liveness pendingChange = OSRestart)
     (m_pendingChanges model) →
   m_restartBtnLabel model = restartNow messages)
  ∧ (first (m_solutionNames model) = osName messages →
     m_restartBtnLabel model = restartNow messages)
  ∧ (first (m_solutionNames model) ≠ osName messages →
     m_restartBtnLabel model = applyNow messages)
  ∧ (Forall (λ pendingChange, pc_liveness pendingChange ≠ OSRestart)
       (m_pendingChanges model) →
     osName messages ≠ VUndefined →
     (∀ pendingChange, pendingChange ∈ m_pendingChanges model →
        displayName pendingChange ≠ osName messages) →
     m_restartBtnLabel model = applyNow messages).
Proof.
  intros Hrelay.
  apply relay_inv in Hrelay as (_ & Hnames & _ & -> & _).
  split_and!.
  - intros Hos. apply generateRestartBtnLabel_os.
    unfold getSolutionsNames in Hnames.
    rewrite isOSRestartNeeded_true in Hnames by done.
    by injection Hnames as <-.
  - apply generateRestartBtnLabel_os.
  - apply generateRestartBtnLabel_apps.
  - intros Hnone Hos Hdistinct. apply generateRestartBtnLabel_apps.
    rewrite (getSolutionsNames_apps _ _ _ Hnone Hnames).
    destruct (first_firstSeen (m_pendingChanges model))
      as [->|(pc & Hpc & <-)]; [done | by apply Hdistinct].
Qed.

End text_properties.

Section text_scenarios.

Import restartWarning.

Lemma restartBtnLabel_cases_witness :
  m_restartBtnLabel model_os = restartNow messages_en.
Proof.
  refine (proj1 (restartBtnLabel_cases stringTemplate_pass messages_en
                   (appChange "x" VNull VNull :: changes_os)
                   [leaf "a"; group "g" [leaf "b"; leaf "c"]]
                   {| visible := false |} model_os {| visible := true |}
                   eq_refl) _).
  apply Exists_cons_tl, Exists_cons_hd. reflexivity.
Defined.

(** C7, counterexample: an application whose name is the OS name. No
    pending change requires an OS restart, yet the label is
    [messages.restartNow], which differs from [messages.applyNow]. *)
Lemma restartBtnLabel_name_collision :
  relay stringTemplate_pass messages_en
    [appChange "a" (VString "Windows") VNull] [leaf "a"] {| visible := false |}
  = Normal ({| m_pendingChanges := [appChange "a" (VString "Windows") VNull];
               m_solutionNames := [VString "Windows"];
               m_restartText := osRestartText messages_en;
               m_restartBtnLabel := restartNow messages_en |},
            {| visible := true |})
  ∧ needsOSRestart (appChange "a" (VString "Windows") VNull) = false
  ∧ strictEq (restartNow messages_en) (applyNow messages_en) = false.
Proof. split_and!; reflexivity. Qed.

(** C6, counterexample: without any pending change the warning is
    hidden, but neither the restart text nor the button label is
    absent. *)
Lemma relay_no_pending_changes :
  relay stringTemplate_pass messages_en [] [leaf "a"] {| visible := true |}
  = Normal ({| m_pendingChanges := [];
               m_solutionNames := [];
               m_restartText := VString "To apply your changes,  must restart.";
               m_restartBtnLabel := VString "Apply now" |},
            {| visible := false |}).
Proof. reflexivity. Qed.

(** C8, counterexample: the [restartText] template is present but is
    the empty string; the result is [undefined], not the instantiated
    template (which would be the empty string). *)
Lemma generateRestartText_empty_template :
  generateRestartText stringTemplate_pass
    {| osName := VString "Windows";
       osRestartText := VString "Windows needs to restart to apply your changes.";
       restartText := VString "";
       undo := VString "Undo";
       applyNow := VString "Apply now";
       restartNow := VString "Restart now" |}
    [VString "Magnifier"]
  = VUndefined
  ∧ VString (stringTemplate_pass "" [("solutions", join ", " [VString "Magnifier"])])
    = VString "".
Proof. split; reflexivity. Qed.

Example generateRestartText_applications :
  generateRestartText stringTemplate_pass messages_en
    [VString "Magnifier"; VString "Zoom Tool"]
  = VString "To apply your changes, Magnifier, Zoom Tool must restart.".
Proof. reflexivity. Qed.

Example relay_os_restart :
  relay stringTemplate_pass messages_en (appChange "x" VNull VNull :: changes_os)
    [leaf "a"; group "g" [leaf "b"; leaf "c"]] {| visible := false |}
  = Normal (model_os, {| visible := true |}).
Proof. reflexivity. Qed.

End text_scenarios.

(** ** Further properties of the restart warning *)

Section restart_warning_more.

Import restartWarning.

#[local] Instance hasNameSource_dec (pendingChange : PendingChange) :
  Decision (hasNameSource pendingChange).
Proof. unfold hasNameSource. apply _. Defined.

Lemma isOSRestartNeeded_false_inv (pendingChanges : list PendingChange) :
  fluid.found (fluid.find_if pendingChanges needsOSRestart) = false →
  Forall (λ pendingChange, pc_liveness pendingChange ≠ OSRestart) pendingChanges.
Proof.
  intros Hnot. apply Forall_forall. intros pc Hin Hos.
  assert (fluid.found (fluid.find_if pendingChanges needsOSRestart) = true);
    [|congruence].
  apply found_find_if_true. exists pc. by rewrite needsOSRestart_true.
Qed.

Lemma getSolutionsNames_branches (messages : Messages)
    (pendingChanges : list PendingChange) :
  (Exists (λ pendingChange, pc_liveness pendingChange = OSRestart) pendingChanges
   ∧ getSolutionsNames messages pendingChanges = Normal [osName messages])
  ∨ (Forall (λ pendingChange, pc_liveness pendingChange ≠ OSRestart) pendingChanges
     ∧ getSolutionsNames messages pendingChanges
       = fluid.accumulate pendingChanges addSolutionName []).
Proof.
  unfold getSolutionsNames.
  destruct (fluid.found (fluid.find_if pendingChanges needsOSRestart)) eqn:Hos.
  - left. split; [|done]. apply found_find_if_true in Hos as (pc & Hin & Hpc).
    apply Exists_exists. exists pc. by rewrite <- needsOSRestart_true.
  - right. split; [by apply isOSRestartNeeded_false_inv | done].
Qed.

Lemma find_if_Some {A} (source : list A) (func : A → bool) (x : A) :
  fluid.find_if source func = Some x →
  ∃ before after, source = before ++ x :: after
                  ∧ func x = true
                  ∧ Forall (λ y, func y = false) before.
Proof.
  induction source as [|y rest IH]; [done|].
  rewrite find_if_cons. destruct (func y) eqn:Hy.
  - intros [= ->]. exists [], rest. by split_and!.
  - intros Hrest. destruct (IH Hrest) as (before & after & -> & Hx & Hbefore).
    exists (y :: before), after. split_and!; [done|done|by constructor].
Qed.

(** X1. [getSolutionsNames] throws exactly when no pending change
    requires an OS restart and some pending change has neither a solution
    name nor a schema object. *)
Theorem getSolutionsNames_throws (messages : Messages)
    (pendingChanges : list PendingChange) :
  getSolutionsNames messages pendingChanges = Throw TypeError
  ↔ Forall (λ pendingChange, pc_liveness pendingChange ≠ OSRestart) pendingChanges
    ∧ Exists (λ pendingChange, ¬ hasNameSource pendingChange) pendingChanges.
Proof.
  destruct (getSolutionsNames_branches messages pendingChanges)
    as [[Hos ->]|[Hnone ->]].
  - split; [done|]. intros [Hnone _]. exfalso.
    apply Exists_exists in Hos as (pc & Hin & Hpc).
    rewrite Forall_forall in Hnone. by apply (Hnone pc).
  - split.
    + intros Hthrow. split; [done|].
      apply not_Forall_Exists; [apply _|]. intros Hsrc.
      rewrite accumulate_firstSeen in Hthrow by done. done.
    + intros [_ Hbad].
      destruct (fluid.accumulate pendingChanges addSolutionName [])
        as [names|[]] eqn:Hacc; [|done]. exfalso.
      apply accumulate_Normal in Hacc.
      apply Exists_exists in Hbad as (pc & Hin & Hpc).
      rewrite Forall_forall in Hacc. by apply Hpc, Hacc.
Qed.

(** X2. Names are only ever appended: without OS restart, the names for
    a list of changes followed by later ones are the names for the first
    list, followed by those names of the later changes that are new. *)
Theorem getSolutionsNames_app (messages : Messages)
    (pendingChanges later : list PendingChange) (solutionNames : list value) :
  Forall (λ pendingChange, pc_liveness pendingChange ≠ OSRestart)
    (pendingChanges ++ later) →
  getSolutionsNames messages (pendingChanges ++ later) = Normal solutionNames →
  ∃ names laterNames,
    getSolutionsNames messages pendingChanges = Normal names
    ∧ getSolutionsNames messages later = Normal laterNames
    ∧ solutionNames = names ++ filter (λ name, name ∉ names) laterNames
    ∧ names `prefix_of` solutionNames.
Proof.
  intros [Hnone1 Hnone2]%Forall_app Hnames.
  pose proof (getSolutionsNames_apps _ _ _
                (proj2 (Forall_app _ _ _) (conj Hnone1 Hnone2)) Hnames) as Hall.
  unfold getSolutionsNames in *.
  rewrite isOSRestartNeeded_false in Hnames
    by (apply Forall_app; by split).
  apply accumulate_Normal in Hnames as [Hsrc1 Hsrc2]%Forall_app.
  rewrite !isOSRestartNeeded_false by done.
  rewrite !accumulate_firstSeen by done. simpl.
  rewrite !filter_not_elem_of_nil.
  exists (firstSeen (presentNames pendingChanges)), (firstSeen (presentNames later)).
  assert (Heq : solutionNames
                = firstSeen (presentNames pendingChanges)
                  ++ filter (λ name, name ∉ firstSeen (presentNames pendingChanges))
                       (firstSeen (presentNames later))).
  { rewrite Hall.
    assert (Hacc : fluid.accumulate (pendingChanges ++ later) addSolutionName []
                   = Normal (firstSeen (presentNames (pendingChanges ++ later)))).
    { rewrite accumulate_firstSeen by (apply Forall_app; by split).
      simpl. by rewrite filter_not_elem_of_nil. }
    rewrite accumulate_app, accumulate_firstSeen in Hacc by done.
    simpl in Hacc. rewrite filter_not_elem_of_nil in Hacc.
    rewrite accumulate_firstSeen in Hacc by done. by injection Hacc as <-. }
  split_and!; [done|done|done|].
  rewrite Heq. by eexists.
Qed.

(** X3. There are never more solution names than pending changes. *)
Theorem getSolutionsNames_length (messages : Messages)
    (pendingChanges : list PendingChange) (solutionNames : list value) :
  getSolutionsNames messages pendingChanges = Normal solutionNames →
  (length solutionNames ≤ length pendingChanges)%nat.
Proof.
  destruct (getSolutionsNames_branches messages pendingChanges)
    as [[Hos ->]|[Hnone Heq]].
  - intros [= <-]. destruct Hos; simpl; lia.
  - intros Hnames.
    rewrite (getSolutionsNames_apps _ _ _ Hnone Hnames).
    etrans; [apply sublist_length, firstSeen_sublist|].
    unfold presentNames.
    etrans; [apply sublist_length, sublist_filter|].
    by rewrite length_fmap.
Qed.

(** X4. The order in which the pending changes arrive decides the order
    of the solution names only: reordering the changes reorders the
    names. *)
Theorem getSolutionsNames_Permutation (messages : Messages)
    (pendingChanges reordered : list PendingChange) (solutionNames : list value) :
  pendingChanges ≡ₚ reordered →
  getSolutionsNames messages pendingChanges = Normal solutionNames →
  ∃ names, getSolutionsNames messages reordered = Normal names
           ∧ solutionNames ≡ₚ names.
Proof.
  intros Hperm Hnames.
  destruct (getSolutionsNames_branches messages pendingChanges)
    as [[Hos Heq]|[Hnone Heq]].
  - rewrite Heq in Hnames. injection Hnames as <-.
    exists [osName messages]. split; [|done].
    unfold getSolutionsNames. rewrite isOSRestartNeeded_true; [done|].
    by rewrite <- Hperm.
  - pose proof (getSolutionsNames_apps _ _ _ Hnone Hnames) as ->.
    rewrite Heq in Hnames. apply accumulate_Normal in Hnames.
    exists (firstSeen (presentNames reordered)). split.
    + unfold getSolutionsNames.
      rewrite isOSRestartNeeded_false by (by rewrite <- Hperm).
      rewrite accumulate_firstSeen by (by rewrite <- Hperm).
      simpl. by rewrite filter_not_elem_of_nil.
    + apply NoDup_Permutation; [apply firstSeen_NoDup..|].
      intros name. rewrite !firstSeen_elem_of, !presentNames_elem_of.
      by setoid_rewrite Hperm.
Qed.

End restart_warning_more.

Section relay_more.

Import restartWarning.

Variable stringTemplate : string → list (string * string) → string.

Lemma treePaths_app (settings others : list Setting) :
  treePaths (settings ++ others) = treePaths settings ++ treePaths others.
Proof. unfold treePaths. apply bind_app. Qed.

Lemma getPendingChanges_elem_of (pendingChanges : list PendingChange)
    (settings : list Setting) (pendingChange : PendingChange) :
  pendingChange ∈ getPendingChanges pendingChanges settings
  ↔ pc_path pendingChange ∈ treePaths settings ∧ pendingChange ∈ pendingChanges.
Proof. by rewrite getPendingChanges_filter, list_elem_of_filter. Qed.

(** X5. The warning is shown exactly when some pending change of the
    group requires an OS restart or has a display name that is a value;
    the liveness of the other changes plays no part. *)
Theorem relay_visible (messages : Messages)
    (panelPendingChanges : list PendingChange) (settings : list Setting)
    (container : Container) (model : Model) (container' : Container) :
  relay stringTemplate messages panelPendingChanges settings container
  = Normal (model, container') →
  (visible container' = true
   ↔ ∃ pendingChange,
       pendingChange ∈ getPendingChanges panelPendingChanges settings
       ∧ (pc_liveness pendingChange = OSRestart
          ∨ fluid.isValue (displayName pendingChange) = true)).
Proof.
  intros Hrelay.
  apply relay_inv in Hrelay as (Hscoped & Hnames & _ & _ & ->).
  rewrite <- Hscoped. unfold toggle. cbn [visible]. rewrite Z.ltb_lt.
  destruct (getSolutionsNames_branches messages (m_pendingChanges model))
    as [[Hos Heq]|[Hnone Heq]].
  - rewrite Heq in Hnames. injection Hnames as <-. simpl.
    split; [intros _|lia].
    apply Exists_exists in Hos as (pc & Hin & Hpc). exists pc. auto.
  - rewrite (getSolutionsNames_apps _ _ _ Hnone Hnames).
    rewrite Forall_forall in Hnone. split.
    + intros Hlen.
      destruct (firstSeen (presentNames (m_pendingChanges model)))
        as [|name rest] eqn:Hfirst; [simpl in Hlen; lia|].
      assert (Hin : name ∈ firstSeen (presentNames (m_pendingChanges model))).
      { rewrite Hfirst. left. }
      rewrite firstSeen_elem_of, presentNames_elem_of in Hin.
      destruct Hin as [Hvalue (pc & Hpc & <-)]. exists pc. auto.
    + intros (pc & Hin & [Hos|Hvalue]); [by destruct (Hnone pc Hin)|].
      assert (Hname : displayName pc
                      ∈ firstSeen (presentNames (m_pendingChanges model))).
      { rewrite firstSeen_elem_of, presentNames_elem_of. split; [done|].
        by exists pc. }
      destruct (firstSeen (presentNames (m_pendingChanges model)));
        [by apply not_elem_of_nil in Hname | simpl; lia].
Qed.

(** X6. As soon as one pending change of the panel requires an OS
    restart and belongs to the group, the relays give the OS name as the
    only solution name, the OS restart text, the "restart now" label and a
    visible warning, whatever the other changes are. *)
Theorem relay_OSRestart (messages : Messages)
    (panelPendingChanges : list PendingChange) (settings : list Setting)
    (container : Container) (pendingChange : PendingChange) :
  pendingChange ∈ panelPendingChanges →
  pc_liveness pendingChange = OSRestart →
  pc_path pendingChange ∈ treePaths settings →
  relay stringTemplate messages panelPendingChanges settings container
  = Normal ({| m_pendingChanges := getPendingChanges panelPendingChanges settings;
               m_solutionNames := [osName messages];
               m_restartText := osRestartText messages;
               m_restartBtnLabel := restartNow messages |},
            {| visible := true |}).
Proof.
  intros Hin Hos Hpath. unfold relay, getSolutionsNames.
  rewrite isOSRestartNeeded_true.
  - simpl. unfold generateRestartText, generateRestartBtnLabel. simpl.
    by rewrite (proj2 (strictEq_true _ _) eq_refl).
  - apply Exists_exists. exists pendingChange. split; [|done].
    by apply getPendingChanges_elem_of.
Qed.

(** X7. A pending change for a setting outside the group, even one
    from which no name can be read, leaves the warning of the group as it
    is. *)
Theorem relay_outside_change (messages : Messages)
    (before after : list PendingChange) (pendingChange : PendingChange)
    (settings : list Setting) (container : Container) :
  pc_path pendingChange ∉ treePaths settings →
  relay stringTemplate messages (before ++ pendingChange :: after) settings container
  = relay stringTemplate messages (before ++ after) settings container.
Proof.
  intros Hout.
  assert (Hsame : getPendingChanges (before ++ pendingChange :: after) settings
                  = getPendingChanges (before ++ after) settings).
  { rewrite !getPendingChanges_filter, !filter_app, filter_cons.
    by rewrite decide_False. }
  unfold relay. by rewrite Hsame.
Qed.

(** X8. What [hasUpdatedSetting] returns is not the matching setting
    itself but the first setting of the list whose subtree holds the path
    of the pending change; it returns the default exactly when no setting
    of the tree has that path. *)
Theorem hasUpdatedSetting_result (pendingChange : PendingChange)
    (settings : list Setting) :
  (∀ setting,
     hasUpdatedSetting pendingChange settings = Some setting →
     ∃ before after, settings = before ++ setting :: after
                     ∧ pc_path pendingChange ∈ pathsOf setting
                     ∧ pc_path pendingChange ∉ treePaths before)
  ∧ (hasUpdatedSetting pendingChange settings = None
     ↔ pc_path pendingChange ∉ treePaths settings).
Proof.
  split.
  - intros setting Hfound. unfold hasUpdatedSetting in Hfound.
    apply find_if_Some in Hfound as (before & after & -> & Hset & Hbefore).
    exists before, after. split_and!; [done|by apply appliesTo_pathsOf|].
    unfold treePaths. rewrite list_elem_of_bind.
    intros (other & Hpath & Hin). rewrite Forall_forall in Hbefore.
    apply appliesTo_pathsOf in Hpath. rewrite (Hbefore other Hin) in Hpath. done.
  - rewrite <- hasUpdatedSetting_treePaths.
    destruct (hasUpdatedSetting pendingChange settings); simpl; split; done.
Qed.

(** X9. Scoping distributes over the concatenation of pending changes,
    and a change belongs to the union of two groups of settings exactly
    when it belongs to one of them. *)
Theorem getPendingChanges_app (pendingChanges later : list PendingChange)
    (settings others : list Setting) :
  getPendingChanges (pendingChanges ++ later) settings
  = getPendingChanges pendingChanges settings ++ getPendingChanges later settings
  ∧ ∀ pendingChange,
      pendingChange ∈ getPendingChanges pendingChanges (settings ++ others)
      ↔ pendingChange ∈ getPendingChanges pendingChanges settings
        ∨ pendingChange ∈ getPendingChanges pendingChanges others.
Proof.
  split.
  - unfold getPendingChanges. apply List.filter_app.
  - intros pendingChange.
    rewrite !getPendingChanges_elem_of, treePaths_app, elem_of_app. tauto.
Qed.

(** X10. Scoping an already scoped list changes nothing, so the relays
    give the same warning from the scoped changes as from all the changes
    of the panel. *)
Theorem relay_scoped (messages : Messages)
    (panelPendingChanges : list PendingChange) (settings : list Setting)
    (container : Container) :
  getPendingChanges (getPendingChanges panelPendingChanges settings) settings
  = getPendingChanges panelPendingChanges settings
  ∧ relay stringTemplate messages
      (getPendingChanges panelPendingChanges settings) settings container
    = relay stringTemplate messages panelPendingChanges settings container.
Proof.
  assert (Hidem :
    getPendingChanges (getPendingChanges panelPendingChanges settings) settings
    = getPendingChanges panelPendingChanges settings).
  { rewrite !getPendingChanges_filter, list_filter_filter.
    apply list_filter_iff. tauto. }
  split; [done|]. unfold relay. by rewrite Hidem.
Qed.

End relay_more.

(** ** Further properties of blurrable windows *)

Section blur_more.

Import blurrable.

Lemma onFocusLost_options focusedWindow that linkedWindowsGrades :
  options_gradeNames (onFocusLost focusedWindow that linkedWindowsGrades)
  = options_gradeNames that
  ∧ options_linkedWindowsGrades (onFocusLost focusedWindow that linkedWindowsGrades)
    = options_linkedWindowsGrades that.
Proof.
  unfold onFocusLost.
  by destruct (allowBlur focusedWindow linkedWindowsGrades).
Qed.

(** X11. Over a run of blur events the component fires [onBlur] once
    for every event at which the focused window shares no grade with its
    linked grades, and never touches its options. *)
Theorem focusLosses_count (focused : list (option BrowserWindow))
    (that : Component) :
  onBlurFired (focusLosses focused that)
  = (onBlurFired that
     + length (filter (λ focusedWindow,
                         allowBlur focusedWindow (options_linkedWindowsGrades that)
                         = true) focused))%nat
  ∧ options_gradeNames (focusLosses focused that) = options_gradeNames that
  ∧ options_linkedWindowsGrades (focusLosses focused that)
    = options_linkedWindowsGrades that.
Proof.
  revert that. induction focused as [|focusedWindow rest IH]; intros that.
  - simpl. split_and!; [lia|done|done].
  - unfold focusLosses in *. cbn [fold_left].
    destruct (IH (focusLostListener focusedWindow that)) as (Hcount & Hgrades & Hlinked).
    unfold focusLostListener in *.
    destruct (onFocusLost_options focusedWindow that
                (options_linkedWindowsGrades that)) as [Hg Hl].
    rewrite Hcount, Hgrades, Hlinked, Hg, Hl. split_and!; [|done|done].
    rewrite filter_cons. unfold onFocusLost.
    destruct (allowBlur focusedWindow (options_linkedWindowsGrades that)) eqn:Hallow.
    + rewrite decide_True by done. simpl. lia.
    + rewrite decide_False by done. lia.
Qed.

(** X12. A window initialised by a component carries that component's
    grade names: when it takes the focus, another component lets its blur
    through exactly when none of those grade names is among its linked
    grades. *)
Theorem initBlurrable_links (other that : Component)
    (window window' : BrowserWindow) (linkedWindowsGrades : list string) :
  initBlurrable other (Some window) = Normal window' →
  ((∃ grade, grade ∈ options_gradeNames other ∧ grade ∈ linkedWindowsGrades) →
     onFocusLost (Some window') that linkedWindowsGrades = that)
  ∧ ((∀ grade, grade ∈ options_gradeNames other → grade ∉ linkedWindowsGrades) →
     onFocusLost (Some window') that linkedWindowsGrades = fireOnBlur that).
Proof.
  intros Hinit. apply initBlurrable_attaches in Hinit. unfold onFocusLost. split.
  - intros (grade & Hown & Hlinked).
    rewrite (proj2 (allowBlur_false_iff _ _)); [done|].
    exists window', grade. unfold tagsOf. by rewrite Hinit.
  - intros Hdisjoint.
    rewrite (proj2 (allowBlur_true_iff _ _)); [done|].
    intros (w & grade & [= <-] & Htag & Hlinked).
    unfold tagsOf in Htag. rewrite Hinit in Htag.
    by apply (Hdisjoint grade).
Qed.

(** X13. Linking fewer grades never suppresses a blur that was let
    through: the decision to fire is kept when linked grades are removed
    (and does not depend on their order or repetition). *)
Theorem allowBlur_fewer_grades (focusedWindow : option BrowserWindow)
    (linkedWindowsGrades fewer : list string) :
  fewer ⊆ linkedWindowsGrades →
  allowBlur focusedWindow linkedWindowsGrades = true →
  allowBlur focusedWindow fewer = true.
Proof.
  intros Hsub. rewrite !allowBlur_true_iff.
  intros Hno (window & tag & Hfocused & Htag & Hlinked).
  apply Hno. exists window, tag. split_and!; [done|done|by apply Hsub].
Qed.

End blur_more.

(** ** Properties of the menu widget *)

Section menu_properties.

Import qssMenu.

Context {V : Type} `{EqDecision V}.

Lemma filter_fmap_length {A B} (f : A → B) (P : B → Prop) (Q : A → Prop)
    `{∀ y, Decision (P y)} `{∀ x, Decision (Q x)} (l : list A) :
  (∀ x, P (f x) ↔ Q x) →
  length (filter P (f <$> l)) = length (filter Q l).
Proof.
  intros Hiff. induction l as [|x l IH]; [done|].
  rewrite fmap_cons, !filter_cons.
  destruct (decide (Q x)) as [HQ|HQ].
  - rewrite decide_True by (by apply Hiff). simpl. by rewrite IH.
  - rewrite decide_False by (by rewrite Hiff). done.
Qed.

(** Among elements with distinct keys at most one has a given key, and
    exactly one when the key occurs. *)
Lemma filter_key_length {A K} `{EqDecision K} (key : A → K) (k : K) (l : list A) :
  NoDup (key <$> l) →
  (length (filter (λ x, key x = k) l) ≤ 1)%nat
  ∧ (k ∈ key <$> l → length (filter (λ x, key x = k) l) = 1%nat).
Proof.
  induction l as [|x l IH]; intros Hnodup.
  - split; [simpl; lia|]. by intros ?%not_elem_of_nil.
  - rewrite fmap_cons in Hnodup. apply NoDup_cons in Hnodup as [Hfresh Hrest].
    destruct (IH Hrest) as [Hle Hone]. rewrite filter_cons, fmap_cons.
    destruct (decide (key x = k)) as [Hk|Hk].
    + assert (Hnone : filter (λ y, key y = k) l = []).
      { destruct (filter (λ y, key y = k) l) as [|y rest] eqn:Hfilter; [done|].
        assert (Hy : y ∈ filter (λ y, key y = k) l) by (rewrite Hfilter; left).
        apply list_elem_of_filter in Hy as [Hyk Hyin]. exfalso. apply Hfresh.
        rewrite Hk, <- Hyk. by apply list_elem_of_fmap_2. }
      rewrite Hnone. simpl. split; [lia|done].
    + split; [done|]. intros [Heq|Hin]%elem_of_cons; [congruence|auto].
Qed.

Lemma updateValue_disabled (that : Repeater) (menu : Menu) (container : Element)
    (value : V) :
  r_disabled that = true →
  updateValue that menu container value = (that, menu, container).
Proof. intros Hdisabled. unfold updateValue. by rewrite Hdisabled. Qed.

(** X14. A disabled widget ignores every request: no value is changed,
    no class is added and no close is scheduled, however many values are
    offered. *)
Theorem updateValues_disabled (values : list V) (that : Repeater) (menu : Menu)
    (container : Element) :
  r_disabled that = true →
  updateValues values (that, menu, container) = (that, menu, container).
Proof.
  intros Hdisabled. unfold updateValues.
  induction values as [|value rest IH]; [done|].
  cbn [fold_left]. by rewrite updateValue_disabled.
Qed.

(** X15. An enabled widget commits at most one change: of the values
    offered in turn, the first that differs from the current value is
    taken, the widget disables itself, marks its container and schedules
    one close after [closeDelay]; every later request is ignored. When no
    offered value differs, nothing happens at all. *)
Theorem updateValues_first_change (values : list V) (that : Repeater) (menu : Menu)
    (container : Element) :
  r_disabled that = false →
  updateValues values (that, menu, container)
  = match head (filter (λ value, value ≠ r_value that) values) with
    | None => (that, menu, container)
    | Some value =>
        ({| r_disabled := true;
            r_value := value;
            r_disabledStyle := r_disabledStyle that;
            r_changes := r_changes that
                         ++ [ChangeValue value (Some settingAlter);
                             ChangeDisabled true None] |},
         {| closeDelay := closeDelay menu;
            timers := timers menu ++ [(closeDelay menu, onQssWidgetClosed)] |},
         addClass (r_disabledStyle that) container)
    end.
Proof.
  intros Henabled. induction values as [|value rest IH]; [done|].
  rewrite filter_cons. unfold updateValues in *. cbn [fold_left].
  unfold updateValue at 2. rewrite Henabled. simpl.
  destruct (decide (value ≠ r_value that)) as [Hnew|Hsame].
  - rewrite bool_decide_eq_false_2 by auto. simpl.
    etrans; [apply (updateValues_disabled rest); reflexivity|].
    unfold changeDisabled, changeValue, close. simpl.
    by rewrite <- app_assoc.
  - apply dec_stable in Hsame. subst value.
    rewrite bool_decide_eq_true_2 by done. simpl. apply IH.
Qed.

Lemma valueListeners_checkmark (source : option string) (value : V)
    (that : Presenter) :
  attributes (p_container (valueListeners source value that)) !! "aria-checked"
  = Some (booleanString (bool_decide (p_item that = value))).
Proof.
  unfold valueListeners, animateActivation, toggleClass, toggleCheckmark. simpl.
  destruct (bool_decide (source = Some settingAlter));
    [destruct (bool_decide (p_item that = value))|]; simpl;
    apply lookup_insert_eq.
Qed.

(** X16. The items behave as a radio group: after any change of the
    value each presenter is marked checked exactly when its item is the
    value, so with distinct items at most one presenter is checked, and
    exactly one when the value is one of the items. *)
Theorem valueListeners_radio (source : option string) (value : V)
    (presenters : list Presenter) :
  NoDup (p_item <$> presenters) →
  (∀ that,
     attributes (p_container (valueListeners source value that)) !! "aria-checked"
     = Some "true"
     ↔ p_item that = value)
  ∧ (length (filter (λ that, attributes (p_container that) !! "aria-checked"
                             = Some "true")
               (valueListeners source value <$> presenters)) ≤ 1)%nat
  ∧ (value ∈ p_item <$> presenters →
     length (filter (λ that, attributes (p_container that) !! "aria-checked"
                             = Some "true")
               (valueListeners source value <$> presenters)) = 1%nat).
Proof.
  intros Hnodup.
  assert (Hchecked : ∀ that,
     attributes (p_container (valueListeners source value that)) !! "aria-checked"
     = Some "true"
     ↔ p_item that = value).
  { intros that. rewrite valueListeners_checkmark.
    case_bool_decide; simpl; split; done. }
  destruct (filter_key_length p_item value presenters Hnodup) as [Hle Hone].
  rewrite (filter_fmap_length _ _ (λ that, p_item that = value)) by done.
  by split_and!.
Qed.

(** X17. The activation style follows the checkmark only for a change
    made through the widget: with source "settingAlter" a presenter
    carries its active style exactly when its item is the value, and its
    other classes are kept; a change from any other source leaves all the
    classes as they are. *)
Theorem valueListeners_active (source : option string) (value : V)
    (that : Presenter) :
  (source = Some settingAlter →
     (p_activeStyle that ∈ classes (p_container (valueListeners source value that))
      ↔ p_item that = value)
     ∧ ∀ className, className ≠ p_activeStyle that →
         (className ∈ classes (p_container (valueListeners source value that))
          ↔ className ∈ classes (p_container that)))
  ∧ (source ≠ Some settingAlter →
     classes (p_container (valueListeners source value that))
     = classes (p_container that)).
Proof.
  unfold valueListeners, animateActivation, toggleClass, toggleCheckmark. split.
  - intros ->. rewrite bool_decide_eq_true_2 by done.
    case_bool_decide as Hitem; simpl.
    + split.
      * rewrite elem_of_union, elem_of_singleton. tauto.
      * intros className Hne. rewrite elem_of_union, elem_of_singleton. tauto.
    + split.
      * rewrite elem_of_difference, elem_of_singleton. tauto.
      * intros className Hne. rewrite elem_of_difference, elem_of_singleton.
        tauto.
  - intros Hother. by rewrite bool_decide_eq_false_2.
Qed.

(** X18. One firing of [onItemFocus] focuses the containers of the
    presenters that have the given index, in their order, always with the
    highlight; with distinct indices that is at most one element. *)
Theorem onItemFocus_target (presenters : list (@Presenter V))
    (focusManager : FocusManager) (index : nat) :
  onItemFocus presenters focusManager index
  = focusManager
    ++ ((λ that, (p_container that, true))
          <$> filter (λ that, p_index that = index) presenters)
  ∧ (NoDup (p_index <$> presenters) →
     (length (onItemFocus presenters focusManager index)
      ≤ length focusManager + 1)%nat).
Proof.
  assert (Heq : ∀ manager,
    onItemFocus presenters manager index
    = manager ++ ((λ that, (p_container that, true))
                    <$> filter (λ that, p_index that = index) presenters)).
  { unfold onItemFocus.
    induction presenters as [|that rest IH]; intros manager; simpl.
    - by rewrite app_nil_r.
    - rewrite IH, filter_cons. unfold focusItem.
      case_bool_decide as Hindex.
      + rewrite decide_True by done. by rewrite <- app_assoc.
      + by rewrite decide_False. }
  split; [apply Heq|]. intros Hnodup.
  rewrite Heq, length_app, length_fmap.
  pose proof (proj1 (filter_key_length p_index index presenters Hnodup)). lia.
Qed.

End menu_properties.

(** ** The further properties at sample inputs *)

Section more_scenarios.

Import restartWarning blurrable qssMenu.

Lemma getSolutionsNames_app_witness :
  ∃ names laterNames,
    getSolutionsNames messages_en magnifierChanges = Normal names
    ∧ getSolutionsNames messages_en readerChanges = Normal laterNames
    ∧ [VString "Magnifier"; VString "Zoom Tool"; VString "Reader"]
      = names ++ filter (λ name, name ∉ names) laterNames
    ∧ names `prefix_of` [VString "Magnifier"; VString "Zoom Tool"; VString "Reader"].
Proof.
  apply (getSolutionsNames_app messages_en magnifierChanges readerChanges).
  - repeat (apply List.Forall_cons; [discriminate|]). apply List.Forall_nil.
  - reflexivity.
Defined.

Lemma getSolutionsNames_length_witness :
  (length [VString "Magnifier"; VString "Reader"] ≤ length readerChanges)%nat.
Proof.
  exact (getSolutionsNames_length messages_en readerChanges
           [VString "Magnifier"; VString "Reader"] eq_refl).
Defined.

Lemma getSolutionsNames_Permutation_witness :
  ∃ names,
    getSolutionsNames messages_en
      [appChange "b" VUndefined (VString "Zoom Tool");
       appChange "a" (VString "Magnifier") VNull]
    = Normal names
    ∧ [VString "Magnifier"; VString "Zoom Tool"] ≡ₚ names.
Proof.
  apply (getSolutionsNames_Permutation messages_en magnifierChanges).
  - apply perm_swap.
  - reflexivity.
Defined.

Lemma relay_visible_witness :
  visible {| visible := true |} = true
  ↔ ∃ pendingChange,
      pendingChange ∈ getPendingChanges (appChange "x" VNull VNull :: changes_os)
                        [leaf "a"; group "g" [leaf "b"; leaf "c"]]
      ∧ (pc_liveness pendingChange = OSRestart
         ∨ fluid.isValue (displayName pendingChange) = true).
Proof.
  exact (relay_visible stringTemplate_pass messages_en
           (appChange "x" VNull VNull :: changes_os)
           [leaf "a"; group "g" [leaf "b"; leaf "c"]]
           {| visible := false |} model_os {| visible := true |} eq_refl).
Defined.

Lemma relay_OSRestart_witness :
  relay stringTemplate_pass messages_en (appChange "x" VNull VNull :: changes_os)
    [leaf "a"; group "g" [leaf "b"; leaf "c"]] {| visible := false |}
  = Normal ({| m_pendingChanges :=
                 getPendingChanges (appChange "x" VNull VNull :: changes_os)
                   [leaf "a"; group "g" [leaf "b"; leaf "c"]];
               m_solutionNames := [osName messages_en];
               m_restartText := osRestartText messages_en;
               m_restartBtnLabel := restartNow messages_en |},
            {| visible := true |}).
Proof.
  apply (relay_OSRestart stringTemplate_pass messages_en _ _ _
           (osChange "b" (VString "Language"))).
  - apply list_elem_of_further, list_elem_of_further, list_elem_of_here.
  - reflexivity.
  - apply list_elem_of_further, list_elem_of_further, list_elem_of_here.
Defined.

Lemma relay_outside_change_witness :
  relay stringTemplate_pass messages_en
    ([appChange "a" (VString "Magnifier") VNull]
     ++ {| pc_path := "x"; pc_liveness := "ApplicationRestart";
           pc_solutionName := VUndefined; pc_schema := None |}
        :: [appChange "c" VUndefined (VString "Zoom Tool")])
    [leaf "a"; group "g" [leaf "b"; leaf "c"]] {| visible := false |}
  = relay stringTemplate_pass messages_en
      ([appChange "a" (VString "Magnifier") VNull]
       ++ [appChange "c" VUndefined (VString "Zoom Tool")])
      [leaf "a"; group "g" [leaf "b"; leaf "c"]] {| visible := false |}.
Proof.
  apply relay_outside_change.
  intros Hin. repeat (apply elem_of_cons in Hin as [Hin|Hin]; [discriminate|]).
  by apply not_elem_of_nil in Hin.
Defined.

Lemma initBlurrable_links_witness :
  onFocusLost
    (Some {| gradeNames := Some ["gpii.app.qssWidget"]; blurListeners := 1 |})
    qssComponent ["gpii.app.qssWidget"]
  = qssComponent.
Proof.
  refine (proj1 (initBlurrable_links widgetComponent qssComponent freshWindow _
                   ["gpii.app.qssWidget"] eq_refl) _).
  exists "gpii.app.qssWidget". split; apply list_elem_of_here.
Defined.

Lemma allowBlur_fewer_grades_witness :
  allowBlur (Some {| gradeNames := Some ["gpii.app.psp"]; blurListeners := 1 |})
    ["gpii.app.qss"]
  = true.
Proof.
  apply (allowBlur_fewer_grades _ ["gpii.app.qss"; "gpii.app.qssWidget"]).
  - intros grade Hin. apply list_elem_of_singleton in Hin as ->.
    apply list_elem_of_here.
  - reflexivity.
Defined.

Lemma updateValues_disabled_witness :
  updateValues ["large"; "medium"] (sizeRepeater true, sizeMenu, plainElement)
  = (sizeRepeater true, sizeMenu, plainElement).
Proof. apply updateValues_disabled. reflexivity. Defined.

Lemma updateValues_first_change_witness :
  updateValues ["small"; "large"; "medium"]
    (sizeRepeater false, sizeMenu, plainElement)
  = ({| r_disabled := true; r_value := "large"; r_disabledStyle := "disabled";
        r_changes := [ChangeValue "large" (Some settingAlter);
                      ChangeDisabled true None] |},
     {| closeDelay := 1200; timers := [(1200, onQssWidgetClosed)] |},
     addClass "disabled" plainElement).
Proof.
  exact (updateValues_first_change ["small"; "large"; "medium"]
           (sizeRepeater false) sizeMenu plainElement eq_refl).
Defined.

Lemma valueListeners_radio_witness :
  length (filter (λ that, attributes (p_container that) !! "aria-checked"
                          = Some "true")
            (valueListeners (Some settingAlter) "medium" <$> sizePresenters))
  = 1%nat.
Proof.
  refine (proj2 (proj2 (valueListeners_radio (Some settingAlter) "medium"
                          sizePresenters _)) _).
  - repeat (apply NoDup_cons; split;
            [intros Hin;
             repeat (apply elem_of_cons in Hin as [Hin|Hin]; [discriminate|]);
             by apply not_elem_of_nil in Hin|]).
    apply NoDup_nil_2.
  - apply list_elem_of_further, list_elem_of_here.
Defined.

End more_scenarios.
